(** * Enigma V300 option-key ciphers

    A shallow embedding of the two option-key transforms of
    [enigma_v300_pure_cpp.cpp]: Cipher-A ([enigma_c_encrypt],
    [enigma_c_decrypt], [enigma_c_check_option_key]) and Cipher-B
    ([enigma2_c_encrypt], [enigma2_c_decrypt], [enigma2_c_check_option_key]),
    with the static rotor tables they read.

    A [std::string] is a [list ascii]; a [char] is read through [ord] as the
    signed 8-bit value the C++ arithmetic sees and written back through [chr]
    (the [static_cast<char>] wrap-around modulo 256).  The library calls the
    code makes that do not return normally are the failures of a small error
    monad [res]: [std::exit(1)] after a diagnostic, [std::out_of_range] thrown
    by [.at] and [substr], and [std::invalid_argument] thrown by [std::stoi]. *)

From Stdlib Require Import ZArith Ascii String List Bool Lia Permutation.
Import ListNotations.
Open Scope Z_scope.

(** ** Failures and the error monad *)

Inductive failure : Type :=
| Exit1            (* std::exit(1) after a message on std::cerr *)
| OutOfRange       (* std::out_of_range (vector::at, string::at, substr, stoi) *)
| InvalidArgument. (* std::invalid_argument (stoi with no digits) *)

Inductive res (A : Type) : Type :=
| Ok : A -> res A
| Fail : failure -> res A.
Arguments Ok {A} _.
Arguments Fail {A} _.

Notation "x <- m ;; k" :=
  (match m with Ok x => k | Fail f => Fail f end)
  (at level 61, m at next level, right associativity).

(** ** Characters *)

(** Value of a [char] as the [unsigned char] cast used by [isdigit] etc. *)
Definition uc (c : ascii) : Z := Z.of_N (N_of_ascii c).

(** Value of a (signed) [char] in integer arithmetic such as [c - '0']. *)
Definition ord (c : ascii) : Z :=
  let n := uc c in if n <? 128 then n else n - 256.

(** [static_cast<char>(z)]. *)
Definition chr (z : Z) : ascii := ascii_of_N (Z.to_N (z mod 256)).

Definition in_range (lo hi : Z) (c : ascii) : bool := (lo <=? uc c) && (uc c <=? hi).

Definition isdigit (c : ascii) : bool := in_range 48 57 c.
Definition isupper (c : ascii) : bool := in_range 65 90 c.
Definition isxdigit (c : ascii) : bool :=
  in_range 48 57 c || in_range 97 102 c || in_range 65 70 c.
Definition isspace (c : ascii) : bool := (uc c =? 32) || in_range 9 13 c.

(** [std::tolower] in the "C" locale. *)
Definition tolower (c : ascii) : ascii := if isupper c then chr (uc c + 32) else c.

(** ** Container accessors *)

(** [std::vector<int>::at]. The index is a [size_t]: a negative [int]
    converts to a huge value and is out of range as well. *)
Definition at_ (t : list Z) (i : Z) : res Z :=
  if (0 <=? i) && (i <? Z.of_nat (length t)) then Ok (nth (Z.to_nat i) t 0)
  else Fail OutOfRange.

(** [std::string::at]. *)
Definition str_at (s : list ascii) (n : nat) : res ascii :=
  match nth_error s n with Some c => Ok c | None => Fail OutOfRange end.

(** [std::string::substr(pos, n)]. *)
Definition substr (s : list ascii) (pos n : nat) : res (list ascii) :=
  if Nat.leb pos (length s) then Ok (firstn n (skipn pos s)) else Fail OutOfRange.

Definition str_eqb (s t : list ascii) : bool :=
  if list_eq_dec ascii_dec s t then true else false.

(** ** [std::stoi] (base 10) *)

Fixpoint skip_space (s : list ascii) : list ascii :=
  match s with
  | c :: s' => if isspace c then skip_space s' else s
  | [] => []
  end.

Fixpoint digit_prefix (s : list ascii) : list ascii :=
  match s with
  | c :: s' => if isdigit c then c :: digit_prefix s' else []
  | [] => []
  end.

Fixpoint digits_value_acc (acc : Z) (s : list ascii) : Z :=
  match s with
  | c :: s' => digits_value_acc (10 * acc + (ord c - 48)) s'
  | [] => acc
  end.

Definition digits_value (s : list ascii) : Z := digits_value_acc 0 s.

Definition stoi (s : list ascii) : res Z :=
  let s1 := skip_space s in
  let '(neg, s2) :=
    match s1 with
    | c :: r => if uc c =? 45 then (true, r) else if uc c =? 43 then (false, r) else (false, s1)
    | [] => (false, s1)
    end in
  match digit_prefix s2 with
  | [] => Fail InvalidArgument
  | ds =>
      let v := if neg then - digits_value ds else digits_value ds in
      if (v <? - 2 ^ 31) || (2 ^ 31 - 1 <? v) then Fail OutOfRange else Ok v
  end.

(** ** Constants and rotor tables *)

Definition PRODUCT_CODE_SIZE : nat := 4.
Definition OPTION_CODE_SIZE : nat := 3.
Definition SERIAL_NUMBER_SIZE_ENIGMA2 : nat := 7.
Definition SERIAL_NUMBER_SIZE_ENIGMAC : nat := 10.
Definition CHECK_SUM_SIZE : nat := 2.
Definition KEY_LENGTH : nat :=
  PRODUCT_CODE_SIZE + OPTION_CODE_SIZE + SERIAL_NUMBER_SIZE_ENIGMA2 + CHECK_SUM_SIZE.
Definition SERIAL_LOCATION : nat := CHECK_SUM_SIZE + PRODUCT_CODE_SIZE.
Definition PRODUCT_LOCATION : nat := CHECK_SUM_SIZE.
Definition OPTION_LOCATION : nat :=
  CHECK_SUM_SIZE + PRODUCT_CODE_SIZE + SERIAL_NUMBER_SIZE_ENIGMA2.
Definition MAX_CHECK_SUM : Z := 26000.

Definition ENIGMA_C_ROTOR : list Z := [5; 4; 14; 11; 1; 8; 10; 13; 7; 3; 15; 0; 2; 12; 9; 6].
Definition ENIGMA2_E_ROTOR_10 : list Z := [5; 4; 1; 8; 7; 3; 0; 2; 9; 6].
Definition ENIGMA2_E_ROTOR_26 : list Z :=
  [16; 8; 25; 5; 23; 21; 18; 17; 2; 1; 7; 24; 15; 11; 9; 6; 3; 0; 19; 12; 22; 14; 10; 4; 20; 13].
Definition ENIGMA2_D_ROTOR_10 : list Z := [6; 2; 7; 5; 1; 0; 9; 4; 3; 8].
Definition ENIGMA2_D_ROTOR_26 : list Z :=
  [17; 9; 8; 16; 23; 3; 15; 10; 1; 14; 22; 13; 19; 25; 21; 12; 0; 7; 6; 18; 24; 5; 20; 4; 11; 2].

(** ** Cipher-A *)

(** [(c >= '0' && c <= '9') ? (c - '0') : (c - 'a' + 10)] *)
Definition hex_value (c : ascii) : Z :=
  if (48 <=? ord c) && (ord c <=? 57) then ord c - 48 else ord c - 97 + 10.

(** [(temp < 10) ? temp + '0' : temp - 10 + 'a'] *)
Definition hex_char (temp : Z) : ascii :=
  if temp <? 10 then chr (temp + 48) else chr (temp - 10 + 97).

(** The loop of [enigma_c_encrypt] from position [index] on, with
    [output_value] equal to [ov] and [fuel] positions left. *)
Fixpoint enigma_c_encrypt_loop (input : list ascii) (index : nat) (ov : Z) (fuel : nat)
  : res (list ascii) :=
  match fuel with
  | O => Ok []
  | S fuel' =>
      c0 <- str_at input index ;;
      let c := tolower c0 in
      if negb (isxdigit c) then Fail Exit1 else
      let input_value := hex_value c in
      r <- at_ ENIGMA_C_ROTOR (Z.rem (input_value + Z.of_nat index) 16) ;;
      let output_value := Z.lxor r ov in
      let temp := Z.rem output_value 16 in
      rest <- enigma_c_encrypt_loop input (S index) output_value fuel' ;;
      Ok (hex_char temp :: rest)
  end.

Definition enigma_c_encrypt (input_key : list ascii) (len : nat) : res (list ascii) :=
  enigma_c_encrypt_loop input_key 0 0 len.

(** The inner linear search of [enigma_c_decrypt]: the first [i] with
    [ENIGMA_C_ROTOR.at(i) == v], or the initial [output_value = 0]. *)
Fixpoint rotor_search (t : list Z) (v : Z) (i : Z) : Z :=
  match t with
  | x :: t' => if x =? v then i else rotor_search t' v (i + 1)
  | [] => 0
  end.

Fixpoint enigma_c_decrypt_loop (input : list ascii) (index : nat) (xor_value : Z) (fuel : nat)
  : res (list ascii) :=
  match fuel with
  | O => Ok []
  | S fuel' =>
      c0 <- str_at input index ;;
      let c := tolower c0 in
      if negb (isxdigit c) then Fail Exit1 else
      let old_output := hex_value c in
      let input_value := Z.lxor old_output xor_value in
      let output_value := rotor_search ENIGMA_C_ROTOR input_value 0 in
      let temp := Z.rem (output_value - Z.of_nat index) 16 in
      let temp := if temp <? 0 then temp + 16 else temp in
      rest <- enigma_c_decrypt_loop input (S index) old_output fuel' ;;
      Ok (hex_char temp :: rest)
  end.

Definition enigma_c_decrypt (input_key : list ascii) (len : nat) : res (list ascii) :=
  enigma_c_decrypt_loop input_key 0 0 len.

Definition BLADERULES : list ascii := list_ascii_of_string "bladerules".

(** [reversed_serial.at(i) = decrypted_key.at(9 - i)] for [i = 0 .. 9]. *)
Fixpoint reversed_serial_loop (dec : list ascii) (i : nat) (fuel : nat) : res (list ascii) :=
  match fuel with
  | O => Ok []
  | S fuel' =>
      c <- str_at dec (9 - i) ;;
      rest <- reversed_serial_loop dec (S i) fuel' ;;
      Ok (c :: rest)
  end.

Definition enigma_c_check_option_key (option : Z) (key serial_number : list ascii) : res bool :=
  match key with
  | [] => Ok false
  | _ =>
      if str_eqb key BLADERULES then Ok true else
      decrypted_key <- enigma_c_decrypt key 12 ;;
      reversed_serial <- reversed_serial_loop decrypted_key 0 10 ;;
      if negb (str_eqb reversed_serial serial_number) then Ok false else
      opt_str <- substr decrypted_key 10 2 ;;
      opt <- stoi opt_str ;;
      Ok (opt =? option)
  end.

(** ** Cipher-B *)

(** [isdigit(c) ? (c - '0') : (c - 'A')] *)
Definition temp_value (c : ascii) : Z := if isdigit c then ord c - 48 else ord c - 65.

(** The running sum [acc += i + d + i*d] over [s] starting at position [i]. *)
Fixpoint checksum_loop (i acc : Z) (s : list ascii) : Z :=
  match s with
  | c :: s' => let d := temp_value c in checksum_loop (i + 1) (acc + i + d + i * d) s'
  | [] => acc
  end.

(** Step 1 of [enigma2_c_encrypt]: checksum digits written at positions 0 and 1. *)
Definition write_checksum (input_key : list ascii) : list ascii :=
  let checksum := checksum_loop 2 1 (skipn 2 input_key) in
  let checksum := 100 - Z.rem checksum 100 in
  chr (Z.rem checksum 10 + 48) :: chr (Z.rem (Z.quot checksum 10) 10 + 48) :: skipn 2 input_key.

(** Step 2 of [enigma2_c_encrypt]: rotor substitution from position [i]
    with [running_sum = rs]. *)
Fixpoint enigma2_encrypt_loop (i rs : Z) (s : list ascii) : res (list ascii) :=
  match s with
  | [] => Ok []
  | c :: s' =>
      let temp_sum := temp_value c in
      out <- (if isdigit c
              then x <- at_ ENIGMA2_E_ROTOR_10 (Z.rem (temp_sum + MAX_CHECK_SUM - rs) 10) ;;
                   Ok (chr (x + 48))
              else x <- at_ ENIGMA2_E_ROTOR_26 (Z.rem (temp_sum + MAX_CHECK_SUM - rs) 26) ;;
                   Ok (chr (65 + x))) ;;
      rest <- enigma2_encrypt_loop (i + 1) (rs + i + temp_sum + i * temp_sum) s' ;;
      Ok (out :: rest)
  end.

Definition enigma2_c_encrypt (input_key : list ascii) : res (list ascii) :=
  if Nat.eqb (length input_key) KEY_LENGTH
  then enigma2_encrypt_loop 0 0 (write_checksum input_key)
  else Fail Exit1.

(** The loop of [enigma2_c_decrypt] from position [i] with [checksum = cks];
    returns the substituted characters and the final checksum. *)
Fixpoint enigma2_decrypt_loop (i cks : Z) (s : list ascii) : res (list ascii * Z) :=
  match s with
  | [] => Ok ([], cks)
  | c :: s' =>
      temp_sum <- (if isdigit c
                   then x <- at_ ENIGMA2_D_ROTOR_10 (ord c - 48) ;; Ok (Z.rem (x + cks) 10)
                   else x <- at_ ENIGMA2_D_ROTOR_26 (ord c - 65) ;; Ok (Z.rem (x + cks) 26)) ;;
      let out := if isdigit c then chr (temp_sum + 48) else chr (65 + temp_sum) in
      r <- enigma2_decrypt_loop (i + 1) (cks + i + temp_sum + i * temp_sum) s' ;;
      Ok (out :: fst r, snd r)
  end.

Definition enigma2_c_decrypt (input_key : list ascii) : res (list ascii) :=
  if Nat.eqb (length input_key) KEY_LENGTH then
    r <- enigma2_decrypt_loop 0 0 input_key ;;
    let output_key := fst r in
    let checksum := snd r + 8 * (ord (nth 1 output_key "0"%char) - 48) in
    if negb (Z.rem checksum 100 =? 0) then Ok [] else Ok output_key
  else Fail Exit1.

Definition enigma2_c_check_option_key (option : Z) (key : list ascii) : res bool :=
  match key with
  | [] => Ok false
  | _ =>
      decrypted_key <- enigma2_c_decrypt key ;;
      match decrypted_key with
      | [] => Ok false
      | _ =>
          opt_str <- substr decrypted_key OPTION_LOCATION OPTION_CODE_SIZE ;;
          opt <- stoi opt_str ;;
          Ok (opt =? option)
      end
  end.

(** ** Key assembly (callers in the menu layer) *)

Definition L (s : string) : list ascii := list_ascii_of_string s.

(** [calculate_nettool_option_key]: [serial + to_string(option) + "0"], reversed. *)
Definition assemble_c (serial : list ascii) (option_digit : ascii) : list ascii :=
  rev (serial ++ [option_digit; "0"%char]).

(** [calculate_enigma2_option_key]: ["00" + product + serial + option]. *)
Definition assemble_2 (product serial option : list ascii) : list ascii :=
  L "00" ++ product ++ serial ++ option.

(** ** Vocabulary of the properties *)

(** A Cipher-B character: a decimal digit or an uppercase letter A-Z. *)
Definition valid_b (c : ascii) : bool := isdigit c || isupper c.

(** Two characters of the same Cipher-B class. *)
Definition same_class (a b : ascii) : Prop := isdigit a = isdigit b /\ isupper a = isupper b.

(** The checksum the Cipher-B decode gate tests, as a function of the
    decoded string: the per-position sum of [i + d + i*d], plus eight times
    [output_key.at(1) - '0']. *)
Definition decoded_checksum (dec : list ascii) : Z :=
  checksum_loop 0 0 dec + 8 * (ord (nth 1 dec "0"%char) - 48).

(** Insertion sort on integers, used to state the table invariants. *)
Fixpoint insert_z (x : Z) (l : list Z) : list Z :=
  match l with
  | y :: l' => if x <=? y then x :: l else y :: insert_z x l'
  | [] => [x]
  end.

Fixpoint sort_z (l : list Z) : list Z :=
  match l with
  | x :: l' => insert_z x (sort_z l')
  | [] => []
  end.

Definition iota_z (n : nat) : list Z := map Z.of_nat (seq 0 n).

(** ** Finite checks used in the proofs *)

Definition table_inv_check (e d : list Z) (n : Z) (k : Z) : bool :=
  match at_ e k with
  | Ok x => (0 <=? x) && (x <? n) && match at_ d x with Ok y => y =? k | Fail _ => false end
  | Fail _ => false
  end.

Definition table_range_check (d : list Z) (n : Z) (k : Z) : bool :=
  match at_ d k with Ok y => (0 <=? y) && (y <? n) | Fail _ => false end.

(** Per-character checks, decided by enumerating the 256 characters. *)
Definition hex_in_check (c : ascii) : bool :=
  negb (isxdigit c) ||
  (isxdigit (tolower c) && (0 <=? hex_value (tolower c)) && (hex_value (tolower c) <? 16) &&
   Ascii.eqb (hex_char (hex_value (tolower c))) (tolower c)).

Definition hex_char_check (x : Z) : bool :=
  isxdigit (hex_char x) && Ascii.eqb (tolower (hex_char x)) (hex_char x) &&
  (hex_value (hex_char x) =? x) && (isdigit (hex_char x) || in_range 97 102 (hex_char x)).

Definition xdigit_lower_check (c : ascii) : bool := Bool.eqb (isxdigit (tolower c)) (isxdigit c).

Definition rotor_check (j : Z) : bool :=
  match at_ ENIGMA_C_ROTOR j with
  | Ok r => (0 <=? r) && (r <? 16) && (rotor_search ENIGMA_C_ROTOR r 0 =? j)
  | Fail _ => false
  end.

Definition lxor_check (a : Z) : bool :=
  forallb (fun b => (0 <=? Z.lxor a b) && (Z.lxor a b <? 16)) (iota_z 16).

(** Characters [std::stoi] neither skips nor reads as a sign. *)
Definition stoi_plain (c : ascii) : bool :=
  negb (isspace c) && negb (uc c =? 45) && negb (uc c =? 43).

(** * Console layer

    The menu and command-line functions of the same file.  They run over a
    console [world]: the lines still to be read from [std::cin] and the
    text written so far to [std::cout] and [std::cerr].  A run ends
    normally with a value, or stops: [std::exit(1)] or an uncaught
    exception of [failure] (which terminates the program),
    [std::length_error] from the [std::string(count, ch)] constructor, or a
    prompt loop that has reached the end of the input and keeps rejecting
    the line [std::getline] leaves behind. *)

(** ** Console text *)

Definition nl : ascii := "010"%char.

(** A line of text: [s] followed by ["\n"]. *)
Definition Ln (s : string) : list ascii := L s ++ [nl].

Definition Lns (ss : list string) : list ascii := flat_map Ln ss.

Definition SOFTWARE_VERSION : list ascii := L "3.0.0".

(** Decimal digits of [n >= 0], at most [fuel] of them (ten suffice for an [int]). *)
Fixpoint dec_digits (fuel : nat) (n : Z) (acc : list ascii) : list ascii :=
  match fuel with
  | O => acc
  | S f =>
      let acc' := chr (48 + n mod 10) :: acc in
      if n <? 10 then acc' else dec_digits f (n / 10) acc'
  end.

(** [std::to_string] of an [int], and [operator<<] of an integer in decimal. *)
Definition to_string (z : Z) : list ascii :=
  if z <? 0 then "-"%char :: dec_digits 20 (- z) [] else dec_digits 20 z [].

Fixpoint hex_digits (fuel : nat) (n : Z) (acc : list ascii) : list ascii :=
  match fuel with
  | O => acc
  | S f =>
      let acc' := hex_char (n mod 16) :: acc in
      if n <? 16 then acc' else hex_digits f (n / 16) acc'
  end.

(** [std::cout << std::hex << n] for [n >= 0]. *)
Definition to_hex_string (z : Z) : list ascii := hex_digits 20 z [].

(** ** Product tables *)

Module ProductInfo.
Record t : Type := mk { code : list ascii; abbr : list ascii; name : list ascii }.
End ProductInfo.

Module OptionInfo.
Record t : Type := mk { code : list ascii; desc : list ascii }.
End OptionInfo.

Module ProductOptions.
Record t : Type := mk { product_code : list ascii; options : list OptionInfo.t }.
End ProductOptions.

Definition PRODUCT_TABLE : list ProductInfo.t := [
  ProductInfo.mk (L "3001") (L "NTs2") (L "NetTool Series II");
  ProductInfo.mk (L "7001") (L "LRPro") (L "LinkRunner Pro Duo");
  ProductInfo.mk (L "6963") (L "Escope/MSv2") (L "EtherScope/MetroScope");
  ProductInfo.mk (L "6964") (L "OneTouch") (L "OneTouch AT");
  ProductInfo.mk (L "2186") (L "OptiView") (L "OptiView XG");
  ProductInfo.mk (L "1890") (L "ClearSight") (L "ClearSight Analyzer");
  ProductInfo.mk (L "1895") (L "iClearSight") (L "iClearSight Analyzer")].

Definition opt (c d : string) : OptionInfo.t := OptionInfo.mk (L c) (L d).

Definition PRODUCT_OPTIONS : list ProductOptions.t := [
  ProductOptions.mk (L "6964") [
    opt "000" "Registered"; opt "001" "Wired (Was Copper)"; opt "002" "Obsolete (was fiber)";
    opt "003" "Wi-Fi"; opt "004" "Obsolete (was inline)"; opt "005" "Capture";
    opt "006" "Advanced Tests"; opt "007" "XGR-to-ATX Upgrade"; opt "008" "Claimed (Cloud Tools)";
    opt "009" "LatTests (China LAN Tests)"; opt "064" "XGReflector (Future)";
    opt "065" "Performance Peer (Future)"];
  ProductOptions.mk (L "6963") [
    opt "000" "MetroScope Base, EtherScope LAN"; opt "001" "MetroScope WLAN, EtherScope WLAN";
    opt "002" "MetroScope Multi, EtherScope ITO"; opt "003" "MetroScope VoIP, EtherScope Fiber";
    opt "004" "MetroScope LT, EtherScope LT"];
  ProductOptions.mk (L "7001") [
    opt "000" "802.1x"; opt "002" "Reports"; opt "003" "LAN"];
  ProductOptions.mk (L "2186") [
    opt "000" "Wireless Analyzer Option"; opt "001" "Enables Network Test Ports A-D";
    opt "002" "10Gb Ethernet Analyzer Option"; opt "003" "LAN / 10Gb Ethernet Analyzer Option";
    opt "004" "NPT - Network Performance Option"; opt "007" "Everything"];
  ProductOptions.mk (L "1890") [opt "000" "Activation Code"; opt "007" "All Options"];
  ProductOptions.mk (L "1895") [opt "000" "Activation Code"; opt "003" "All Options"];
  ProductOptions.mk (L "3001") [
    opt "003" "Personalization"; opt "004" "VoIP"; opt "005" "NetSecure"; opt "008" "Dicom"]].

(** [std::vector<T>::at(i)] with an [int] index converted to [size_t]. *)
Definition vec_at {A : Type} (t : list A) (i : Z) : res A :=
  if 0 <=? i then match nth_error t (Z.to_nat i) with Some x => Ok x | None => Fail OutOfRange end
  else Fail OutOfRange.

(** The first entry of [PRODUCT_TABLE] with the given code. *)
Fixpoint find_product (t : list ProductInfo.t) (code : list ascii) : option ProductInfo.t :=
  match t with
  | p :: t' => if str_eqb (ProductInfo.code p) code then Some p else find_product t' code
  | [] => None
  end.

(** The first entry of [PRODUCT_OPTIONS] for the given product code. *)
Fixpoint find_options (t : list ProductOptions.t) (code : list ascii) : option ProductOptions.t :=
  match t with
  | po :: t' =>
      if str_eqb (ProductOptions.product_code po) code then Some po else find_options t' code
  | [] => None
  end.

(** ** The console monad *)

Record world : Type := mkWorld { cin : list (list ascii); cout : list ascii; cerr : list ascii }.

Inductive stop : Type :=
| Stopped (f : failure)  (* std::exit(1), or an uncaught exception *)
| LengthError            (* std::length_error *)
| Hangs.                 (* a prompt loop at the end of std::cin *)

Definition io (A : Type) : Type := world -> (A + stop) * world.

Definition ret {A : Type} (a : A) : io A := fun w => (inl a, w).

Definition halt {A : Type} (s : stop) : io A := fun w => (inr s, w).

Definition io_bind {A B : Type} (m : io A) (k : A -> io B) : io B :=
  fun w => match m w with
           | (inl a, w') => k a w'
           | (inr s, w') => (inr s, w')
           end.

Notation "x <-- m ;; k" := (io_bind m (fun x => k))
  (at level 61, m at next level, right associativity).
Notation "m ;;; k" := (io_bind m (fun _ : unit => k))
  (at level 61, right associativity).

(** A call of the cipher layer.  Its own exits are reached from no console
    path (the lemmas below show the console checks its inputs first), so
    their diagnostics are not written to [cerr] here. *)
Definition lift {A : Type} (r : res A) : io A :=
  fun w => match r with Ok a => (inl a, w) | Fail f => (inr (Stopped f), w) end.

Definition put_out (s : list ascii) : io unit :=
  fun w => (inl tt, mkWorld (cin w) (cout w ++ s) (cerr w)).

Definition put_err (s : list ascii) : io unit :=
  fun w => (inl tt, mkWorld (cin w) (cout w) (cerr w ++ s)).

Definition exit1 {A : Type} : io A := halt (Stopped Exit1).

(** [std::getline(std::cin, line)]: the next line; at the end of the input
    the line read is empty. *)
Definition getline : io (list ascii) :=
  fun w => match cin w with
           | l :: r => (inl l, mkWorld r (cout w) (cerr w))
           | [] => (inl [], w)
           end.

(** [while (true) { std::cout << prompt; std::getline(std::cin, line); ... }]:
    [step line] ends the loop with a value, or gives the message printed
    before the next round.  Once the input is exhausted, [std::getline]
    leaves the line empty or as it was, both rejected before: when the empty
    line is rejected the loop never ends. *)
Fixpoint prompt_rounds {A : Type} (prompt : list ascii) (step : list ascii -> A + list ascii)
  (lines : list (list ascii)) (out : list ascii) : (A + stop) * list (list ascii) * list ascii :=
  match lines with
  | [] =>
      match step [] with
      | inl a => (inl a, [], out ++ prompt)
      | inr _ => (inr Hangs, [], out ++ prompt)
      end
  | l :: rest =>
      match step l with
      | inl a => (inl a, rest, out ++ prompt)
      | inr msg => prompt_rounds prompt step rest (out ++ prompt ++ msg)
      end
  end.

Definition prompt_loop {A : Type} (prompt : list ascii) (step : list ascii -> A + list ascii)
  : io A :=
  fun w => let '(r, rest, out) := prompt_rounds prompt step (cin w) (cout w) in
           (r, mkWorld rest out (cerr w)).

(** ** Input checks of the console *)

Definition isalpha (c : ascii) : bool := in_range 65 90 c || in_range 97 122 c.
Definition isalnum (c : ascii) : bool := isdigit c || isalpha c.

(** [s.length() == n && std::all_of(s.begin(), s.end(), ::isdigit)] *)
Definition digits_of_length (n : nat) (s : list ascii) : bool :=
  Nat.eqb (length s) n && forallb isdigit s.

(** [option_key.length() == 12 && all_of(... std::isxdigit ...)] *)
Definition valid_nettool_key (s : list ascii) : bool :=
  Nat.eqb (length s) 12 && forallb isxdigit s.

(** [std::isalnum(c) && (std::isdigit(c) || (c >= 'A' && c <= 'Z'))] *)
Definition enigma2_key_char (c : ascii) : bool :=
  isalnum c && (isdigit c || ((65 <=? ord c) && (ord c <=? 90))).

Definition valid_enigma2_key (s : list ascii) : bool :=
  Nat.eqb (length s) 16 && forallb enigma2_key_char s.

(** [(input.length() > 0 && std::isdigit(input.at(0))) ? (input.at(0) - '0') : 0] *)
Definition option_digit (input : list ascii) : Z :=
  match input with
  | c :: _ => if isdigit c then ord c - 48 else 0
  | [] => 0
  end.

(** [if (option_number < 0 || option_number > 9) option_number = 0;] *)
Definition clamp_option (n : Z) : Z := if (n <? 0) || (9 <? n) then 0 else n.

(** ** Menu functions *)

Definition get_menu_choice (prompt : list ascii) (min_val max_val : Z) : io Z :=
  prompt_loop prompt (fun input =>
    match stoi input with
    | Ok choice =>
        if (min_val <=? choice) && (choice <=? max_val) then inl choice
        else inr (Ln "Invalid choice, please try again.")
    | Fail _ => inr (Ln "Invalid input, please enter a number.")
    end).

(** A loop reading a code of [n] digits. *)
Definition read_code (n : nat) (prompt msg : list ascii) : io (list ascii) :=
  prompt_loop prompt (fun input => if digits_of_length n input then inl input else inr msg).

Fixpoint product_lines (i : Z) (t : list ProductInfo.t) : list ascii :=
  match t with
  | p :: t' =>
      to_string i ++ L ". " ++ ProductInfo.code p ++ L " - " ++ ProductInfo.name p ++ [nl] ++
      product_lines (i + 1) t'
  | [] => []
  end.

Fixpoint option_lines (i : Z) (t : list OptionInfo.t) : list ascii :=
  match t with
  | o :: t' =>
      to_string i ++ L ". " ++ OptionInfo.code o ++ L " - " ++ OptionInfo.desc o ++ [nl] ++
      option_lines (i + 1) t'
  | [] => []
  end.

(** [product_code_menu]: [Some (product_code, option_code)] when it returns
    [true]. *)
Definition product_code_menu : io (option (list ascii * list ascii)) :=
  put_out (nl :: Ln "--- Product Code Menu ---") ;;;
  put_out (product_lines 1 PRODUCT_TABLE) ;;;
  put_out (Lns ["8. Custom Product Code"; "0. Exit"]%string) ;;;
  choice <-- get_menu_choice (L "Choose your option: ") 0 8 ;;
  if choice =? 0 then ret None else
  if choice =? 8 then
    product_code <-- read_code 4 (L "Enter Product Code (4 digits): ")
                                 (Ln "Product code must be 4 digits.") ;;
    option_code <-- read_code 3 (L "Enter Option Code (3 digits): ")
                                (Ln "Option code must be 3 digits.") ;;
    ret (Some (product_code, option_code))
  else
    product <-- lift (vec_at PRODUCT_TABLE (choice - 1)) ;;
    let product_code := ProductInfo.code product in
    let no_options :=
      put_out (L "No options defined for " ++ ProductInfo.name product ++ Ln ".") ;;; ret None in
    match find_options PRODUCT_OPTIONS product_code with
    | None => no_options
    | Some po =>
        match ProductOptions.options po with
        | [] => no_options
        | options =>
            put_out (nl :: L "--- Options for " ++ ProductInfo.name product ++ Ln " ---") ;;;
            put_out (option_lines 1 options) ;;;
            put_out (Lns ["8. Custom Option Code"; "0. Exit"]%string) ;;;
            opt_choice <-- get_menu_choice (L "Choose your option: ") 0 8 ;;
            if opt_choice =? 0 then ret None else
            if opt_choice =? 8 then
              option_code <-- read_code 3 (L "Enter Option Code (3 digits): ")
                                          (Ln "Option code must be 3 digits.") ;;
              ret (Some (product_code, option_code))
            else
              o <-- lift (vec_at options (opt_choice - 1)) ;;
              ret (Some (product_code, OptionInfo.code o))
        end
    end.

(** [for (i = 0; i < length; ++i) { if (i % 4 == 0) cout << " "; cout << key.at(i); }] *)
Fixpoint key_groups (i : nat) (k : list ascii) : list ascii :=
  match k with
  | c :: k' => (if Nat.eqb (Nat.modulo i 4) 0 then [" "%char] else []) ++ c :: key_groups (S i) k'
  | [] => []
  end.

Definition print_option_key (option_key : list ascii) : io unit :=
  put_out (L "Option Key:" ++ key_groups 0 option_key ++ [nl]).

(** [reversed_key.at(i) = input_key.at(11 - i)] for [i = 0 .. 11]. *)
Fixpoint reverse_key_loop (input_key : list ascii) (i fuel : nat) : res (list ascii) :=
  match fuel with
  | O => Ok []
  | S f =>
      c <- str_at input_key (11 - i) ;;
      rest <- reverse_key_loop input_key (S i) f ;;
      Ok (c :: rest)
  end.

Definition read_serial (n : nat) (prompt msg : list ascii) (serial_number : list ascii)
  : io (list ascii) :=
  match serial_number with
  | [] => read_code n prompt msg
  | _ => ret serial_number
  end.

Definition calculate_nettool_option_key (serial_number : list ascii) (option_number : Z)
  : io unit :=
  serial_number <-- read_serial SERIAL_NUMBER_SIZE_ENIGMAC (L "Enter Serial Number (10 digits): ")
                      (Ln "Serial number must be 10 digits.") serial_number ;;
  (if negb (digits_of_length SERIAL_NUMBER_SIZE_ENIGMAC serial_number)
   then put_err (Ln "Serial number must be 10 digits") ;;; exit1
   else ret tt) ;;;
  option_number <--
    (if option_number <? 0 then
       put_out (nl :: Ln "NetTool Options: 0=Inline 1=Reports/Ping 3=Personal 4=VoIP 5=SwitchWizard") ;;;
       put_out (L "Enter Option Number (1 digit): ") ;;;
       input <-- getline ;;
       ret (option_digit input)
     else ret option_number) ;;
  let option_number := clamp_option option_number in
  let input_key := serial_number ++ to_string option_number ++ L "0" in
  reversed_key <-- lift (reverse_key_loop input_key 0 12) ;;
  put_out (nl :: Ln "Encrypting with Enigma 1...") ;;;
  output_key <-- lift (enigma_c_encrypt reversed_key 12) ;;
  print_option_key output_key.

Definition check_nettool_option_key (option_key : list ascii) : io unit :=
  serial_number <-- read_code SERIAL_NUMBER_SIZE_ENIGMAC (L "Enter Serial Number (10 digits): ")
                      (Ln "Serial number must be 10 digits.") ;;
  option_key <--
    (match option_key with
     | [] => prompt_loop (L "Enter Option Key (12 hex digits): ")
               (fun l => if valid_nettool_key l then inl l
                         else inr (Ln "Option key must be 12 hex digits."))
     | _ => ret option_key
     end) ;;
  (if negb (valid_nettool_key option_key)
   then put_err (Ln "Option key must be 12 hex digits") ;;; exit1
   else ret tt) ;;;
  put_out (L "Enter Option Number (1 digit): ") ;;;
  input <-- getline ;;
  let option_number := clamp_option (option_digit input) in
  put_out (nl :: Ln "EnigmaC::checkOptionKey()...") ;;;
  put_out (L "serialNum: " ++ serial_number ++ [nl]) ;;;
  put_out (L "optionKey: " ++ option_key ++ [nl]) ;;;
  put_out (L "optionNum: 0x" ++ to_hex_string option_number ++ [nl]) ;;;
  result <-- lift (enigma_c_check_option_key option_number option_key serial_number) ;;
  put_out (L "Option " ++ (if result then L "valid" else L "invalid") ++ [nl]).

(** [std::string(n - s.length(), '0') + s]: the count is a [size_t], so a
    string longer than [n] wraps it to a huge value and the constructor
    throws [std::length_error]. *)
Definition zero_pad (n : nat) (s : list ascii) : io (list ascii) :=
  if Nat.leb (length s) n then ret (repeat "0"%char (n - length s) ++ s) else halt LengthError.

Definition calculate_enigma2_option_key (serial_number : list ascii) (option_number product_code : Z)
  (assume_escope : bool) : io unit :=
  product_code_str <-- (if 0 <=? product_code then zero_pad 4 (to_string product_code) else ret []) ;;
  option_str <-- (if 0 <=? option_number then zero_pad 3 (to_string option_number) else ret []) ;;
  serial_number <-- read_serial SERIAL_NUMBER_SIZE_ENIGMA2 (L "Enter Serial Number (7 digits): ")
                      (Ln "Serial number must be 7 digits.") serial_number ;;
  (if negb (digits_of_length SERIAL_NUMBER_SIZE_ENIGMA2 serial_number)
   then put_err (Ln "Serial number must be 7 digits") ;;; exit1
   else ret tt) ;;;
  put_out (L "SerialNum= " ++ serial_number ++ [nl]) ;;;
  codes <--
    (match product_code_str, option_str, assume_escope with
     | _ :: _, _ :: _, true => ret (Some (product_code_str, option_str))
     | _, _, _ =>
         r <-- product_code_menu ;;
         match r with
         | None => put_out (Ln "Operation cancelled.") ;;; ret None
         | Some codes => ret (Some codes)
         end
     end) ;;
  match codes with
  | None => ret tt
  | Some (product_code_str, option_str) =>
      let input_key := L "00" ++ product_code_str ++ serial_number ++ option_str in
      put_out (nl :: Ln "Encrypting with Enigma 2...") ;;;
      output_key <-- lift (enigma2_c_encrypt input_key) ;;
      print_option_key output_key
  end.

Definition check_enigma2_option_key (option_key : list ascii) : io unit :=
  option_key <--
    (match option_key with
     | [] => prompt_loop (L "Enter Option Key (16 characters): ")
               (fun l => if valid_enigma2_key l then inl l
                         else inr (Ln "Option key must be 16 alphanumeric characters."))
     | _ => ret option_key
     end) ;;
  (if negb (valid_enigma2_key option_key)
   then put_err (Ln "Option key must be 16 alphanumeric characters") ;;; exit1
   else ret tt) ;;;
  put_out (Ln "Decrypting with Enigma 2...") ;;;
  decrypted_key <-- lift (enigma2_c_decrypt option_key) ;;
  (match decrypted_key with
   | [] => put_err (Ln "Decryption failed: invalid checksum") ;;; exit1
   | _ => ret tt
   end) ;;;
  product_code <-- lift (substr decrypted_key PRODUCT_LOCATION PRODUCT_CODE_SIZE) ;;
  put_out (L "Product Code: " ++ product_code ++ L " -> ") ;;;
  put_out (match find_product PRODUCT_TABLE product_code with
           | Some product => ProductInfo.name product ++ [nl]
           | None => Ln "Unknown"
           end) ;;;
  serial <-- lift (substr decrypted_key SERIAL_LOCATION SERIAL_NUMBER_SIZE_ENIGMA2) ;;
  put_out (L "SerialNumber: " ++ serial ++ [nl]) ;;;
  option <-- lift (substr decrypted_key OPTION_LOCATION OPTION_CODE_SIZE) ;;
  put_out (L "OptionNumber: " ++ option ++ [nl]).

Definition main_menu : io bool :=
  put_out (nl :: L "--- Enigma " ++ SOFTWARE_VERSION ++ Ln " Main Menu ---") ;;;
  put_out (Lns ["1. Generate NetTool 10/100 Option Key";
                "2. Check NetTool 10/100 Option Key";
                "3. Generate Option Key for Other Fluke Products";
                "4. Decrypt Option Key for Other Fluke Products";
                "0. Exit"]%string) ;;;
  choice <-- get_menu_choice (L "Choose your option: ") 0 4 ;;
  if choice =? 0 then ret false else
  if choice =? 1 then calculate_nettool_option_key [] (-1) ;;; ret true else
  if choice =? 2 then check_nettool_option_key [] ;;; ret true else
  if choice =? 3 then calculate_enigma2_option_key [] (-1) (-1) false ;;; ret true else
  if choice =? 4 then check_enigma2_option_key [] ;;; ret true else
  put_err (L "Unexpected choice value: " ++ to_string choice ++ [nl]) ;;; ret false.

(** [while (main_menu()) {}], for at most [fuel] rounds. *)
Fixpoint menu_rounds (fuel : nat) : io unit :=
  match fuel with
  | O => halt Hangs
  | S f => again <-- main_menu ;; if again then menu_rounds f else ret tt
  end.

(** Every round reads at least one line ([menu_loop_rounds] below), so
    one round more than there are lines runs the loop to its end. *)
Definition menu_loop : io unit := fun w => menu_rounds (S (length (cin w))) w.

Definition print_help (prog_name : list ascii) : io unit :=
  put_out (L "Enigma " ++ SOFTWARE_VERSION ++ Ln " - Fluke option key utility" ++
           Ln "Usage:" ++
           L "  " ++ prog_name ++ Ln " [mode] [args...]" ++ [nl] ++
           Lns ["Modes:";
                "  -n SERIAL OPTION        Generate NetTool option key";
                "  -x OPTION_KEY           Check NetTool option key";
                "  -e SERIAL [OPTION [PRODUCT]]  Generate EtherScope/MetroScope option key";
                "  -l SERIAL OPTION        Generate LinkRunner Pro option key";
                "  -d OPTION_KEY           Decrypt EtherScope/MetroScope option key"]%string ++ [nl] ++
           Lns ["Utility flags:";
                "  -h, --help, -?          Show this help text";
                "  -V, --version           Show version information";
                "  --list-products         List known product codes";
                "  --list-options CODE     List options for a product code"]%string ++ [nl] ++
           Ln "Run without arguments to launch the interactive menu.").

Definition print_version : io unit :=
  put_out (L "Enigma " ++ SOFTWARE_VERSION ++ Ln " - Fluke option key utility").

Definition list_products : io unit :=
  put_out (Ln "Known Product Codes:" ++
           flat_map (fun p => L "  " ++ ProductInfo.code p ++ L " - " ++ ProductInfo.name p ++ [nl])
             PRODUCT_TABLE).

Definition list_options (product_code : list ascii) : io unit :=
  match find_options PRODUCT_OPTIONS product_code with
  | Some po =>
      let product_name :=
        match find_product PRODUCT_TABLE product_code with
        | Some p => ProductInfo.name p
        | None => L "Unknown"
        end in
      put_out (L "Options for " ++ product_code ++ L " (" ++ product_name ++ Ln "):") ;;;
      put_out (flat_map (fun o => L "  " ++ OptionInfo.code o ++ L " - " ++ OptionInfo.desc o ++ [nl])
                 (ProductOptions.options po))
  | None => put_err (L "No options defined for product code " ++ product_code ++ [nl])
  end.

(** The [switch (selection)] of [main], after the arguments are read. *)
Definition run_selection (selection : Z) (serial_number option_key : list ascii)
  (option_number product_code : Z) (assume_escope : bool) : io Z :=
  if (selection <? 1) || (4 <? selection) then menu_loop ;;; ret 0 else
  if selection =? 1 then calculate_nettool_option_key serial_number option_number ;;; ret 0 else
  if selection =? 2 then check_nettool_option_key option_key ;;; ret 0 else
  if selection =? 3 then
    calculate_enigma2_option_key serial_number option_number product_code assume_escope ;;; ret 0
  else
  if selection =? 4 then check_enigma2_option_key option_key ;;; ret 0 else
  put_err (L "Invalid selection value: " ++ to_string selection ++ [nl]) ;;; ret 1.

Definition arg_is (a : list ascii) (s : string) : bool := str_eqb a (L s).

(** The mode flag of [argv[1]]: [(selection, product_code, assume_escope)],
    or [None] for the "Unknown option" exit. *)
Definition mode_of (arg1 : list ascii) : option (Z * Z * bool) :=
  if arg_is arg1 "-n" then Some (1, -1, false) else
  if arg_is arg1 "-x" then Some (2, -1, false) else
  if arg_is arg1 "-e" then Some (3, 6963, true) else
  if arg_is arg1 "-l" then Some (3, 7001, true) else
  if arg_is arg1 "-d" then Some (4, -1, false) else
  match stoi arg1 with
  | Ok selection => Some (selection, -1, false)
  | Fail _ => None
  end.

(** [main(argc, argv)] with [argv] the list of its arguments, returning the
    exit status. *)
Definition main (argv : list (list ascii)) : io Z :=
  let argc := length argv in
  let prog_name := nth 0 argv [] in
  let arg k := nth k argv [] in
  if Nat.leb argc 1 then run_selection 0 [] [] (-1) (-1) false else
  let arg1 := arg 1%nat in
  if arg_is arg1 "?" || arg_is arg1 "-?" || arg_is arg1 "-h" || arg_is arg1 "--help" then
    print_help prog_name ;;; ret 0 else
  if arg_is arg1 "-V" || arg_is arg1 "--version" then print_version ;;; ret 0 else
  if arg_is arg1 "--list-products" then list_products ;;; ret 0 else
  if arg_is arg1 "--list-options" then
    (if Nat.ltb 2 argc then list_options (arg 2%nat) ;;; ret 0
     else put_err (Ln "Error: --list-options requires a product code") ;;; ret 1)
  else
  match mode_of arg1 with
  | None =>
      put_err (L "Unknown option: " ++ arg1 ++ [nl]) ;;; print_help prog_name ;;; ret 1
  | Some (selection, product_code, assume_escope) =>
      let key_mode := (selection =? 4) || (selection =? 2) in
      let option_key := if Nat.ltb 2 argc && key_mode then arg 2%nat else [] in
      let serial_number := if Nat.ltb 2 argc && negb key_mode then arg 2%nat else [] in
      option_number <-- (if Nat.ltb 3 argc then lift (stoi (arg 3%nat)) else ret (-1)) ;;
      product_code <-- (if Nat.ltb 4 argc then lift (stoi (arg 4%nat)) else ret product_code) ;;
      run_selection selection serial_number option_key option_number product_code assume_escope
  end.

(** ** Console: vocabulary of the properties *)

(** The key split into groups of four characters, the last one shorter. *)
Fixpoint chunks4 (k : list ascii) : list (list ascii) :=
  match k with
  | a :: b :: c :: d :: r => [a; b; c; d] :: chunks4 r
  | [] => []
  | r => [r]
  end.

(** A line the [step] of a prompt loop turns down. *)
Definition rejected {A : Type} (step : list ascii -> A + list ascii) (l : list ascii) : Prop :=
  exists m, step l = inr m.

(** A line [get_menu_choice] turns down: not a number, or one out of range. *)
Definition menu_rejects (min_val max_val : Z) (l : list ascii) : Prop :=
  match stoi l with Ok v => v < min_val \/ max_val < v | Fail _ => True end.

(** [zero_pad n (std::to_string p)] gives [n] digits of value [p]. *)
Definition pad_ok (n : nat) (p : Z) : bool :=
  let s := to_string p in
  Nat.leb (length s) n &&
  digits_of_length n (repeat "0"%char (n - length s) ++ s) &&
  (digits_value (repeat "0"%char (n - length s) ++ s) =? p).

(** A console action only ever takes lines off the front of [cin]. *)
Definition consumes {A : Type} (m : io A) : Prop :=
  forall w r w', m w = (r, w') -> exists pre, cin w = pre ++ cin w'.

(** ** Tactics and general lemmas *)

(** Case analysis on every boolean comparison of [Z] in sight. *)
Ltac zcase t :=
  lazymatch t with
  | Z.eqb ?x ?y => destruct (Z.eqb_spec x y)
  | Z.ltb ?x ?y => destruct (Z.ltb_spec x y)
  | Z.leb ?x ?y => destruct (Z.leb_spec x y)
  end.

Ltac zbool :=
  repeat (match goal with
          | |- context [?t] => zcase t
          | _ : context [?t] |- _ => zcase t
          end);
  cbn [andb orb negb] in *.

Lemma forall_range (P : Z -> Prop) (f : Z -> bool) (n : nat) :
  (forall k, f k = true -> P k) ->
  forallb f (iota_z n) = true -> forall k, 0 <= k < Z.of_nat n -> P k.
Proof.
  intros Hf Hall k Hk. apply Hf. unfold iota_z in Hall.
  rewrite forallb_forall in Hall. apply Hall.
  apply in_map_iff. exists (Z.to_nat k). split; [lia|]. apply in_seq. lia.
Qed.

Lemma uc_bound c : 0 <= uc c < 256.
Proof. destruct c as [[] [] [] [] [] [] [] []]; unfold uc; simpl; lia. Qed.

Lemma uc_chr z : 0 <= z < 256 -> uc (chr z) = z.
Proof.
  intros Hz. unfold uc, chr. rewrite Z.mod_small by lia.
  rewrite N_ascii_embedding by lia. lia.
Qed.

Lemma chr_uc c : chr (uc c) = c.
Proof.
  pose proof (uc_bound c). unfold chr. rewrite Z.mod_small by lia.
  unfold uc. rewrite N2Z.id. apply ascii_N_embedding.
Qed.

Lemma ord_low c : uc c < 128 -> ord c = uc c.
Proof. intros H. unfold ord. zbool; lia. Qed.

Lemma digit_facts c :
  isdigit c = true -> 48 <= uc c <= 57 /\ ord c = uc c /\ temp_value c = uc c - 48 /\ isupper c = false.
Proof.
  unfold temp_value, isupper, isdigit, in_range. intros H. rewrite H.
  unfold ord. zbool; repeat split; try lia; try discriminate; reflexivity.
Qed.

Lemma upper_facts c :
  isupper c = true -> 65 <= uc c <= 90 /\ ord c = uc c /\ temp_value c = uc c - 65 /\ isdigit c = false.
Proof.
  unfold temp_value, isupper, isdigit, in_range. intros H.
  unfold ord. zbool; repeat split; try lia; try discriminate; reflexivity.
Qed.

Lemma digit_out x :
  0 <= x < 10 -> isdigit (chr (x + 48)) = true /\ isupper (chr (x + 48)) = false /\
                 ord (chr (x + 48)) = x + 48 /\ temp_value (chr (x + 48)) = x.
Proof.
  intros Hx. assert (Hu : uc (chr (x + 48)) = x + 48) by (apply uc_chr; lia).
  unfold temp_value, isdigit, isupper, in_range, ord. rewrite Hu. zbool; repeat split; first [reflexivity | lia | exfalso; lia].
Qed.

Lemma letter_out x :
  0 <= x < 26 -> isdigit (chr (65 + x)) = false /\ isupper (chr (65 + x)) = true /\
                 ord (chr (65 + x)) = 65 + x /\ temp_value (chr (65 + x)) = x.
Proof.
  intros Hx. assert (Hu : uc (chr (65 + x)) = 65 + x) by (apply uc_chr; lia).
  unfold temp_value, isdigit, isupper, in_range, ord. rewrite Hu. zbool; repeat split; first [reflexivity | lia | exfalso; lia].
Qed.

(** ** Rotor tables *)

Lemma table_inv (e d : list Z) (n : nat) :
  forallb (table_inv_check e d (Z.of_nat n)) (iota_z n) = true ->
  forall k, 0 <= k < Z.of_nat n ->
  exists x, at_ e k = Ok x /\ 0 <= x < Z.of_nat n /\ at_ d x = Ok k.
Proof.
  intros H. apply (forall_range _ (table_inv_check e d (Z.of_nat n)) n); [|exact H].
  intros k Hk. unfold table_inv_check in Hk.
  destruct (at_ e k) as [x|]; [|discriminate].
  destruct (at_ d x) as [y|] eqn:Hd; zbool; try discriminate.
  exists x. subst. repeat split; auto; lia.
Qed.

Lemma table_range (d : list Z) (n : nat) :
  forallb (table_range_check d (Z.of_nat n)) (iota_z n) = true ->
  forall k, 0 <= k < Z.of_nat n -> exists y, at_ d k = Ok y /\ 0 <= y < Z.of_nat n.
Proof.
  intros H. apply (forall_range _ (table_range_check d (Z.of_nat n)) n); [|exact H].
  intros k Hk. unfold table_range_check in Hk.
  destruct (at_ d k) as [y|]; zbool; try discriminate. exists y. split; auto; lia.
Qed.

Lemma E10_D10 k : 0 <= k < 10 ->
  exists x, at_ ENIGMA2_E_ROTOR_10 k = Ok x /\ 0 <= x < 10 /\ at_ ENIGMA2_D_ROTOR_10 x = Ok k.
Proof. apply (table_inv _ _ 10). vm_compute. reflexivity. Qed.

Lemma E26_D26 k : 0 <= k < 26 ->
  exists x, at_ ENIGMA2_E_ROTOR_26 k = Ok x /\ 0 <= x < 26 /\ at_ ENIGMA2_D_ROTOR_26 x = Ok k.
Proof. apply (table_inv _ _ 26). vm_compute. reflexivity. Qed.

Lemma D10_range k : 0 <= k < 10 -> exists y, at_ ENIGMA2_D_ROTOR_10 k = Ok y /\ 0 <= y < 10.
Proof. apply (table_range _ 10). vm_compute. reflexivity. Qed.

Lemma D26_range k : 0 <= k < 26 -> exists y, at_ ENIGMA2_D_ROTOR_26 k = Ok y /\ 0 <= y < 26.
Proof. apply (table_range _ 26). vm_compute. reflexivity. Qed.

Lemma insert_z_perm x l : Permutation (insert_z x l) (x :: l).
Proof.
  induction l as [|y l IH]; simpl; [auto|].
  destruct (x <=? y); [auto|].
  eapply perm_trans; [apply perm_skip, IH | apply perm_swap].
Qed.

Lemma sort_z_perm l : Permutation (sort_z l) l.
Proof.
  induction l as [|x l IH]; simpl; [auto|].
  eapply perm_trans; [apply insert_z_perm | apply perm_skip, IH].
Qed.

(** ** Cipher-B: the decode loop on well-formed input *)

Lemma decrypt_loop_valid s : forall i cks,
  Forall (fun c => valid_b c = true) s -> 0 <= i -> 0 <= cks ->
  exists out, enigma2_decrypt_loop i cks s = Ok (out, checksum_loop i cks out) /\
              Forall2 same_class s out.
Proof.
  induction s as [|a s IH]; intros i cks Hv Hi Hc; simpl.
  - exists []. split; [reflexivity | constructor].
  - inversion Hv as [|? ? Ha Hs]; subst. unfold valid_b in Ha.
    destruct (isdigit a) eqn:Hd.
    + destruct (digit_facts a Hd) as (Hr & Ho & Ht & Hu).
      destruct (D10_range (ord a - 48)) as (y & Hy & Hyr); [lia|]. rewrite Hy.
      set (t := Z.rem (y + cks) 10).
      assert (Htr : 0 <= t < 10) by (subst t; Z.to_euclidean_division_equations; lia).
      destruct (digit_out t Htr) as (Hd' & Hu' & Ho' & Ht').
      destruct (IH (i + 1) (cks + i + t + i * t)) as (out & Hl & Hf); auto; try nia.
      rewrite Hl. exists (chr (t + 48) :: out). cbn [checksum_loop fst snd]. rewrite Ht'. split; [reflexivity|].
      constructor; auto. split; congruence.
    + simpl in Ha. destruct (upper_facts a Ha) as (Hr & Ho & Ht & _).
      destruct (D26_range (ord a - 65)) as (y & Hy & Hyr); [lia|]. rewrite Hy.
      set (t := Z.rem (y + cks) 26).
      assert (Htr : 0 <= t < 26) by (subst t; Z.to_euclidean_division_equations; lia).
      destruct (letter_out t Htr) as (Hd' & Hu' & Ho' & Ht').
      destruct (IH (i + 1) (cks + i + t + i * t)) as (out & Hl & Hf); auto; try nia.
      rewrite Hl. exists (chr (65 + t) :: out). cbn [checksum_loop fst snd]. rewrite Ht'. split; [reflexivity|].
      constructor; auto. split; congruence.
Qed.

Lemma decrypt_loop_fail s : forall i cks f,
  enigma2_decrypt_loop i cks s = Fail f -> f = OutOfRange.
Proof.
  induction s as [|a s IH]; intros i cks f H; simpl in H; [discriminate|].
  destruct (isdigit a); unfold at_ in H;
    match type of H with context [if ?b then _ else _] => destruct b end;
    try (inversion H; reflexivity);
    destruct (enigma2_decrypt_loop _ _ s) eqn:E; try discriminate;
    inversion H; subst; eapply IH; eauto.
Qed.

(** ** Cipher-B: encode loop followed by decode loop *)

Lemma encrypt_decrypt_loop s : forall i rs,
  Forall (fun c => valid_b c = true) s -> 0 <= i -> 0 <= rs <= 415 * i ->
  i + Z.of_nat (length s) <= 16 ->
  exists out, enigma2_encrypt_loop i rs s = Ok out /\
              enigma2_decrypt_loop i rs out = Ok (s, checksum_loop i rs s) /\
              Forall2 same_class s out.
Proof.
  induction s as [|a s IH]; intros i rs Hv Hi Hrs Hlen; simpl.
  - exists []. repeat split; constructor.
  - inversion Hv as [|? ? Ha Hs]; subst. unfold valid_b in Ha.
    simpl length in Hlen.
    destruct (isdigit a) eqn:Hd.
    + destruct (digit_facts a Hd) as (Hr & Ho & Ht & Hu).
      set (t := temp_value a) in *.
      set (k := Z.rem (t + MAX_CHECK_SUM - rs) 10).
      assert (Hk : 0 <= k < 10)
        by (subst k; unfold MAX_CHECK_SUM; Z.to_euclidean_division_equations; nia).
      destruct (E10_D10 k Hk) as (x & Hx & Hxr & Hdx). rewrite Hx.
      destruct (IH (i + 1) (rs + i + t + i * t)) as (out & He & Hde & Hf);
        auto; try nia.
      rewrite He. exists (chr (x + 48) :: out). split; [reflexivity|].
      destruct (digit_out x Hxr) as (Hd' & Hu' & Ho' & Ht').
      split.
      * cbn [enigma2_decrypt_loop]. rewrite Hd', Ho'. replace (x + 48 - 48) with x by lia. rewrite Hdx.
        assert (Hrem : Z.rem (k + rs) 10 = t)
          by (subst k; unfold MAX_CHECK_SUM; Z.to_euclidean_division_equations; nia).
        rewrite Hrem, Hde. cbn [fst snd].
        replace (t + 48) with (uc a) by lia. rewrite chr_uc. reflexivity.
      * constructor; auto. split; congruence.
    + simpl in Ha. destruct (upper_facts a Ha) as (Hr & Ho & Ht & _).
      set (t := temp_value a) in *.
      set (k := Z.rem (t + MAX_CHECK_SUM - rs) 26).
      assert (Hk : 0 <= k < 26)
        by (subst k; unfold MAX_CHECK_SUM; Z.to_euclidean_division_equations; nia).
      destruct (E26_D26 k Hk) as (x & Hx & Hxr & Hdx). rewrite Hx.
      destruct (IH (i + 1) (rs + i + t + i * t)) as (out & He & Hde & Hf);
        auto; try nia.
      rewrite He. exists (chr (65 + x) :: out). split; [reflexivity|].
      destruct (letter_out x Hxr) as (Hd' & Hu' & Ho' & Ht').
      split.
      * cbn [enigma2_decrypt_loop]. rewrite Hd', Ho'. replace (65 + x - 65) with x by lia. rewrite Hdx.
        assert (Hrem : Z.rem (k + rs) 26 = t)
          by (subst k; unfold MAX_CHECK_SUM; Z.to_euclidean_division_equations; nia).
        rewrite Hrem, Hde. cbn [fst snd].
        replace (65 + t) with (uc a) by lia. rewrite chr_uc. reflexivity.
      * constructor; auto. split; congruence.
Qed.

(** ** Cipher-B: the checksum *)

Lemma checksum_loop_shift s : forall i acc a,
  checksum_loop i (acc + a) s = a + checksum_loop i acc s.
Proof.
  induction s as [|c s IH]; intros i acc a; simpl; [lia|].
  rewrite <- IH. f_equal. lia.
Qed.

Lemma checksum_loop_ge s : forall i acc,
  Forall (fun c => valid_b c = true) s -> 0 <= i -> acc <= checksum_loop i acc s.
Proof.
  induction s as [|c s IH]; intros i acc Hv Hi; simpl; [lia|].
  inversion Hv as [|? ? Hc Hs]; subst.
  assert (0 <= temp_value c).
  { unfold valid_b in Hc. destruct (isdigit c) eqn:Hd.
    - destruct (digit_facts c Hd) as (? & ? & ? & ?). lia.
    - destruct (upper_facts c Hc) as (? & ? & ? & ?). lia. }
  specialize (IH (i + 1) (acc + i + temp_value c + i * temp_value c) Hs). nia.
Qed.

(** The two characters [write_checksum] puts in front are decimal digits. *)
Lemma write_checksum_shape P :
  Forall (fun c => valid_b c = true) (skipn 2 P) ->
  exists d0 d1,
    write_checksum P = chr (d0 + 48) :: chr (d1 + 48) :: skipn 2 P /\
    0 <= d0 < 10 /\ 0 <= d1 < 10 /\
    Z.rem (d0 + 10 * d1 + checksum_loop 2 1 (skipn 2 P)) 100 = 0.
Proof.
  intros Hv. pose proof (checksum_loop_ge (skipn 2 P) 2 1 Hv ltac:(lia)) as HS.
  unfold write_checksum. set (S := checksum_loop 2 1 (skipn 2 P)) in *.
  exists (Z.rem (100 - Z.rem S 100) 10), (Z.rem (Z.quot (100 - Z.rem S 100) 10) 10).
  split; [reflexivity|]. Z.to_euclidean_division_equations; nia.
Qed.

Lemma enigma2_encrypt_decrypt P :
  length P = KEY_LENGTH -> Forall (fun c => valid_b c = true) P ->
  exists K, enigma2_c_encrypt P = Ok K /\ enigma2_c_decrypt K = Ok (write_checksum P) /\
            Forall2 same_class (write_checksum P) K.
Proof.
  intros Hlen Hv.
  destruct P as [|p0 [|p1 rest]]; simpl in Hlen; try discriminate.
  inversion Hv as [|? ? H0 Hv1]; subst. inversion Hv1 as [|? ? H1 Hr]; subst.
  destruct (write_checksum_shape (p0 :: p1 :: rest)) as (d0 & d1 & Hw & Hd0 & Hd1 & Hsum);
    [exact Hr|].
  simpl skipn in Hw, Hsum.
  destruct (digit_out d0 Hd0) as (Hdd0 & _ & _ & Ht0).
  destruct (digit_out d1 Hd1) as (Hdd1 & _ & Ho1 & Ht1).
  destruct (encrypt_decrypt_loop (write_checksum (p0 :: p1 :: rest)) 0 0)
    as (K & He & Hde & Hf).
  { rewrite Hw. constructor; [unfold valid_b; rewrite Hdd0; reflexivity|].
    constructor; [unfold valid_b; rewrite Hdd1; reflexivity|exact Hr]. }
  { lia. } { lia. }
  { rewrite Hw. simpl length. injection Hlen as Hlen. rewrite Hlen. reflexivity. }
  exists K. split; [|split; [|exact Hf]].
  - unfold enigma2_c_encrypt. simpl length. rewrite Hlen. exact He.
  - unfold enigma2_c_decrypt.
    rewrite <- (Forall2_length Hf). rewrite Hw. simpl length. rewrite Hlen.
    cbn [Nat.eqb KEY_LENGTH PRODUCT_CODE_SIZE OPTION_CODE_SIZE SERIAL_NUMBER_SIZE_ENIGMA2 CHECK_SUM_SIZE Nat.add].
    assert (E : checksum_loop 0 0 (chr (d0 + 48) :: chr (d1 + 48) :: rest) + 8 * (d1 + 48 - 48)
                = d0 + 10 * d1 + checksum_loop 2 1 rest).
    { cbn [checksum_loop]. rewrite Ht0, Ht1. replace (0 + 1 + 1) with 2 by lia.
      match goal with |- context [checksum_loop 2 ?a rest] =>
        replace a with (1 + (d0 + 2 * d1)) by lia end.
      rewrite checksum_loop_shift. lia. }
    rewrite <- Hw, Hde. cbn [fst snd]. rewrite Hw. cbn [nth]. rewrite Ho1, E.
    rewrite Hsum. reflexivity.
Qed.

(** ** Cipher-A: character and table facts *)

Lemma hex_in c :
  isxdigit c = true ->
  isxdigit (tolower c) = true /\ 0 <= hex_value (tolower c) < 16 /\
  hex_char (hex_value (tolower c)) = tolower c.
Proof.
  intros H. assert (Hc : hex_in_check c = true)
    by (destruct c as [[] [] [] [] [] [] [] []]; reflexivity).
  unfold hex_in_check in Hc. rewrite H in Hc. cbn [negb orb] in Hc.
  repeat rewrite andb_true_iff in Hc. destruct Hc as [[[H1 H2] H3] H4].
  apply Ascii.eqb_eq in H4. zbool; repeat split; auto; try lia; discriminate.
Qed.

Lemma isxdigit_tolower c : isxdigit (tolower c) = isxdigit c.
Proof.
  assert (Hc : xdigit_lower_check c = true)
    by (destruct c as [[] [] [] [] [] [] [] []]; reflexivity).
  apply Bool.eqb_prop in Hc. exact Hc.
Qed.

Lemma hex_char_facts x :
  0 <= x < 16 ->
  isxdigit (hex_char x) = true /\ tolower (hex_char x) = hex_char x /\
  hex_value (hex_char x) = x /\ (isdigit (hex_char x) || in_range 97 102 (hex_char x)) = true.
Proof.
  revert x. apply (forall_range _ hex_char_check 16); [|vm_compute; reflexivity].
  intros x Hx. unfold hex_char_check in Hx. repeat rewrite andb_true_iff in Hx.
  destruct Hx as [[[H1 H2] H3] H4]. apply Ascii.eqb_eq in H2. zbool; try discriminate. auto.
Qed.

Lemma rotor_facts j :
  0 <= j < 16 ->
  exists r, at_ ENIGMA_C_ROTOR j = Ok r /\ 0 <= r < 16 /\ rotor_search ENIGMA_C_ROTOR r 0 = j.
Proof.
  revert j. apply (forall_range _ rotor_check 16); [|vm_compute; reflexivity].
  intros j Hj. unfold rotor_check in Hj. destruct (at_ ENIGMA_C_ROTOR j) as [r|];
    [|discriminate].
  zbool; try discriminate. exists r. repeat split; auto; lia.
Qed.

Lemma lxor_bound a b : 0 <= a < 16 -> 0 <= b < 16 -> 0 <= Z.lxor a b < 16.
Proof.
  intros Ha Hb. revert b Hb. revert a Ha. apply (forall_range (fun a => forall b, 0 <= b < 16 -> 0 <= Z.lxor a b < 16)
                                  lxor_check 16); [|vm_compute; reflexivity].
  intros a' Ha' b Hb. unfold lxor_check in Ha'. rewrite forallb_forall in Ha'.
  assert (Hin : In b (iota_z 16)).
  { unfold iota_z. apply in_map_iff. exists (Z.to_nat b). split; [lia|]. apply in_seq. lia. }
  specialize (Ha' b Hin). zbool; try discriminate; lia.
Qed.

Lemma skipn_cons_nth {A} (l : list A) : forall n x t,
  skipn n l = x :: t -> nth_error l n = Some x /\ skipn (S n) l = t.
Proof.
  induction l as [|a l IH]; intros [|n] x t H; simpl in *; try discriminate.
  - injection H as -> ->. auto.
  - apply IH. exact H.
Qed.

Lemma skipn_lt {A} (l : list A) n :
  (n < length l)%nat -> exists x t, skipn n l = x :: t.
Proof.
  intros H. destruct (skipn n l) as [|x t] eqn:E.
  - apply (f_equal (@length A)) in E. rewrite length_skipn in E. simpl in E. lia.
  - eauto.
Qed.

Lemma rem_back v idx :
  0 <= v < 16 -> 0 <= idx ->
  (if Z.rem (Z.rem (v + idx) 16 - idx) 16 <? 0
   then Z.rem (Z.rem (v + idx) 16 - idx) 16 + 16
   else Z.rem (Z.rem (v + idx) 16 - idx) 16) = v.
Proof.
  intros Hv Hi. destruct (Z.ltb_spec (Z.rem (Z.rem (v + idx) 16 - idx) 16) 0);
    Z.to_euclidean_division_equations; lia.
Qed.

(** ** Cipher-A: encode loop followed by decode loop *)

Lemma c_encrypt_decrypt_loop fuel : forall index ov input,
  0 <= ov < 16 -> (index + fuel <= length input)%nat ->
  Forall (fun c => isxdigit c = true) (firstn fuel (skipn index input)) ->
  exists out,
    enigma_c_encrypt_loop input index ov fuel = Ok out /\ length out = fuel /\
    forall K, firstn fuel (skipn index K) = out -> (index + fuel <= length K)%nat ->
      enigma_c_decrypt_loop K index ov fuel = Ok (map tolower (firstn fuel (skipn index input))).
Proof.
  induction fuel as [|fuel IH]; intros index ov input Hov Hlen Hall.
  - exists []. repeat split; auto.
  - destruct (skipn_lt input index) as (c & t & Hs); [lia|].
    destruct (skipn_cons_nth _ _ _ _ Hs) as (Hn & Hs').
    rewrite Hs in Hall. simpl in Hall. inversion Hall as [|? ? Hc Hrest]; subst.
    destruct (hex_in c Hc) as (Hx & Hv & Hh).
    assert (Hj : 0 <= Z.rem (hex_value (tolower c) + Z.of_nat index) 16 < 16)
      by (Z.to_euclidean_division_equations; lia).
    destruct (rotor_facts _ Hj) as (r & Hr & Hrr & Hsr).
    pose proof (lxor_bound r ov Hrr Hov) as Hov'.
    destruct (IH (S index) (Z.lxor r ov) input) as (out & He & Hl & Hd); auto; try lia.
    exists (hex_char (Z.lxor r ov) :: out).
    cbn [enigma_c_encrypt_loop]. unfold str_at. rewrite Hn, Hx. cbn [negb].
    rewrite Hr. rewrite (Z.rem_small (Z.lxor r ov) 16) by lia. rewrite He.
    split; [reflexivity|]. split; [simpl; lia|].
    intros K HK HKlen.
    destruct (skipn_lt K index) as (k & tk & HsK); [lia|].
    rewrite HsK in HK. simpl in HK. injection HK as Hk Htk. subst k.
    destruct (skipn_cons_nth _ _ _ _ HsK) as (HnK & HsK').
    destruct (hex_char_facts _ Hov') as (Hx' & Hl' & Hv' & _).
    cbn [enigma_c_decrypt_loop]. unfold str_at. rewrite HnK, Hl', Hx'. cbn [negb].
    rewrite Hv', Z.lxor_assoc, Z.lxor_nilpotent, Z.lxor_0_r, Hsr.
    rewrite rem_back by lia. rewrite Hh.
    rewrite Hd; [| rewrite HsK'; exact Htk | lia].
    rewrite Hs. reflexivity.
Qed.

(** ** List helpers *)

Lemma Forall_firstn_l {A} (P : A -> Prop) n l : Forall P l -> Forall P (firstn n l).
Proof.
  revert l. induction n as [|n IH]; intros [|a l] H; simpl; auto.
  inversion H; subst. constructor; auto.
Qed.

Lemma Forall_skipn_l {A} (P : A -> Prop) n l : Forall P l -> Forall P (skipn n l).
Proof.
  revert l. induction n as [|n IH]; intros [|a l] H; simpl; auto.
  inversion H; subst. auto.
Qed.

Lemma Forall2_same_class_valid s t :
  Forall2 same_class s t -> Forall (fun c => valid_b c = true) s ->
  Forall (fun c => valid_b c = true) t.
Proof.
  induction 1 as [|a b s t [Hd Hu] _ IH]; intros Hv; constructor;
    inversion Hv; subst; auto.
  unfold valid_b in *. rewrite <- Hd, <- Hu. assumption.
Qed.

Lemma Forall_bool_dec {A} (f : A -> bool) l :
  Forall (fun c => f c = true) l \/ exists c, In c l /\ f c = false.
Proof.
  induction l as [|a l IH]; [left; constructor|].
  destruct (f a) eqn:E.
  - destruct IH as [H|(c & Hc & Hf)]; [left; constructor; auto|right; exists c; simpl; auto].
  - right. exists a. simpl. auto.
Qed.

Lemma Forall_not_bad {A} (f : A -> bool) l c :
  Forall (fun c => f c = true) l -> In c l -> f c = false -> False.
Proof.
  intros H Hin Hf. rewrite Forall_forall in H. rewrite (H c Hin) in Hf. discriminate.
Qed.

(** ** [std::stoi] on a short field without blanks or signs *)

Lemma digit_prefix_digits s : Forall (fun c => isdigit c = true) (digit_prefix s).
Proof.
  induction s as [|c s IH]; simpl; [constructor|].
  destruct (isdigit c) eqn:E; constructor; auto.
Qed.

Lemma digit_prefix_length s : (length (digit_prefix s) <= length s)%nat.
Proof. induction s as [|c s IH]; simpl; [lia|]. destruct (isdigit c); simpl; lia. Qed.

Lemma digit_prefix_all s : Forall (fun c => isdigit c = true) s -> digit_prefix s = s.
Proof. induction 1 as [|c s H _ IH]; simpl; [reflexivity|]. rewrite H, IH. reflexivity. Qed.

Lemma digits_value_acc_bound s : forall acc,
  Forall (fun c => isdigit c = true) s -> 0 <= acc ->
  0 <= digits_value_acc acc s < (acc + 1) * 10 ^ Z.of_nat (length s).
Proof.
  induction s as [|c s IH]; intros acc Hs Hacc; [simpl; lia|].
  cbn [digits_value_acc length].
  inversion Hs as [|? ? Hc Hs']; subst.
  destruct (digit_facts c Hc) as (Hr & Ho & _ & _).
  specialize (IH (10 * acc + (ord c - 48)) Hs' ltac:(lia)).
  rewrite Nat2Z.inj_succ, Z.pow_succ_r by lia.
  pose proof (Z.pow_pos_nonneg 10 (Z.of_nat (length s)) ltac:(lia) ltac:(lia)). nia.
Qed.

Lemma stoi_field s :
  Forall (fun c => stoi_plain c = true) s -> (length s <= 3)%nat ->
  stoi s = match digit_prefix s with
           | [] => Fail InvalidArgument
           | ds => Ok (digits_value ds)
           end.
Proof.
  intros Hs Hlen. unfold stoi.
  assert (Hsk : skip_space s = s).
  { destruct s as [|c s]; [reflexivity|]. inversion Hs; subst.
    unfold stoi_plain in *. simpl. destruct (isspace c); [discriminate|reflexivity]. }
  rewrite Hsk.
  assert (Hsg : match s with
                | c :: r => if uc c =? 45 then (true, r) else if uc c =? 43 then (false, r) else (false, s)
                | [] => (false, s)
                end = (false, s)).
  { destruct s as [|c s]; [reflexivity|]. inversion Hs; subst.
    unfold stoi_plain in *. repeat rewrite andb_true_iff in *. zbool; intuition discriminate. }
  rewrite Hsg.
  pose proof (digits_value_acc_bound (digit_prefix s) 0 (digit_prefix_digits s) ltac:(lia)) as Hb.
  pose proof (digit_prefix_length s) as Hl.
  assert (Hp : 10 ^ Z.of_nat (length (digit_prefix s)) <= 10 ^ 3)
    by (apply Z.pow_le_mono_r; lia).
  unfold digits_value.
  destruct (digit_prefix s) as [|d ds]; [reflexivity|].
  zbool; try lia; reflexivity.
Qed.

Lemma stoi_plain_valid c : valid_b c = true -> stoi_plain c = true.
Proof.
  unfold valid_b, stoi_plain, isspace, isdigit, isupper, in_range. intros H.
  zbool; try discriminate; reflexivity || lia.
Qed.

Lemma stoi_plain_hex c : (isdigit c || in_range 97 102 c) = true -> stoi_plain c = true.
Proof.
  unfold stoi_plain, isspace, isdigit, in_range. intros H.
  zbool; try discriminate; reflexivity || lia.
Qed.

(** ** Input checks of the four transforms *)

Lemma c_encrypt_loop_bad fuel : forall index ov input,
  (index + fuel <= length input)%nat ->
  (exists c, In c (firstn fuel (skipn index input)) /\ isxdigit c = false) ->
  enigma_c_encrypt_loop input index ov fuel = Fail Exit1.
Proof.
  induction fuel as [|fuel IH]; intros index ov input Hlen (c & Hin & Hc); [destruct Hin|].
  destruct (skipn_lt input index) as (a & t & Hs); [lia|].
  destruct (skipn_cons_nth _ _ _ _ Hs) as (Hn & Hs').
  rewrite Hs in Hin. simpl in Hin.
  cbn [enigma_c_encrypt_loop]. unfold str_at. rewrite Hn, isxdigit_tolower.
  destruct (isxdigit a) eqn:Ha; [|reflexivity]. cbn [negb].
  destruct Hin as [->|Hin]; [congruence|].
  destruct (hex_in a Ha) as (_ & Hv & _).
  destruct (rotor_facts (Z.rem (hex_value (tolower a) + Z.of_nat index) 16)) as (r & Hr & _);
    [Z.to_euclidean_division_equations; lia|].
  rewrite Hr, IH; [reflexivity|lia|]. exists c. rewrite Hs'. auto.
Qed.

Lemma c_decrypt_loop_bad fuel : forall index xv input,
  (index + fuel <= length input)%nat ->
  (exists c, In c (firstn fuel (skipn index input)) /\ isxdigit c = false) ->
  enigma_c_decrypt_loop input index xv fuel = Fail Exit1.
Proof.
  induction fuel as [|fuel IH]; intros index xv input Hlen (c & Hin & Hc); [destruct Hin|].
  destruct (skipn_lt input index) as (a & t & Hs); [lia|].
  destruct (skipn_cons_nth _ _ _ _ Hs) as (Hn & Hs').
  rewrite Hs in Hin. simpl in Hin.
  cbn [enigma_c_decrypt_loop]. unfold str_at. rewrite Hn, isxdigit_tolower.
  destruct (isxdigit a) eqn:Ha; [|reflexivity]. cbn [negb].
  destruct Hin as [->|Hin]; [congruence|].
  rewrite IH; [reflexivity|lia|]. exists c. rewrite Hs'. auto.
Qed.

Lemma c_decrypt_loop_ok fuel : forall index xv input,
  (index + fuel <= length input)%nat ->
  Forall (fun c => isxdigit c = true) (firstn fuel (skipn index input)) ->
  exists out, enigma_c_decrypt_loop input index xv fuel = Ok out /\ length out = fuel /\
              Forall (fun c => (isdigit c || in_range 97 102 c) = true) out.
Proof.
  induction fuel as [|fuel IH]; intros index xv input Hlen Hall.
  - exists []. repeat split; auto.
  - destruct (skipn_lt input index) as (a & t & Hs); [lia|].
    destruct (skipn_cons_nth _ _ _ _ Hs) as (Hn & Hs').
    rewrite Hs in Hall. simpl in Hall. inversion Hall as [|? ? Ha Hrest]; subst.
    cbn [enigma_c_decrypt_loop]. unfold str_at. rewrite Hn, isxdigit_tolower, Ha. cbn [negb].
    destruct (IH (S index) (hex_value (tolower a)) input) as (out & Ho & Hl & Hf);
      [lia|exact Hrest|].
    rewrite Ho.
    match goal with |- exists _, Ok (hex_char ?e :: _) = _ /\ _ => set (tp := e) end.
    assert (Htp : 0 <= tp < 16)
      by (subst tp; destruct (Z.ltb_spec (Z.rem (rotor_search ENIGMA_C_ROTOR
            (Z.lxor (hex_value (tolower a)) xv) 0 - Z.of_nat index) 16) 0);
          Z.to_euclidean_division_equations; lia).
    destruct (hex_char_facts tp Htp) as (_ & _ & _ & Hcls).
    exists (hex_char tp :: out). repeat split; simpl; auto.
Qed.

Lemma temp_value_bound c : -193 <= temp_value c <= 62.
Proof.
  pose proof (uc_bound c). unfold temp_value, ord, isdigit, in_range. zbool; lia.
Qed.

Lemma encrypt_loop_total s : forall i rs,
  0 <= i -> rs <= 1007 * i -> i + Z.of_nat (length s) <= 16 ->
  exists out, enigma2_encrypt_loop i rs s = Ok out /\ length out = length s.
Proof.
  induction s as [|a s IH]; intros i rs Hi Hrs Hlen; simpl.
  - exists []. auto.
  - simpl length in Hlen. pose proof (temp_value_bound a) as Ht.
    set (t := temp_value a) in *.
    destruct (IH (i + 1) (rs + i + t + i * t)) as (out & He & Hl); [lia|nia|lia|].
    destruct (isdigit a).
    + destruct (E10_D10 (Z.rem (t + MAX_CHECK_SUM - rs) 10)) as (x & Hx & _);
        [unfold MAX_CHECK_SUM; Z.to_euclidean_division_equations; nia|].
      rewrite Hx, He. exists (chr (x + 48) :: out). simpl. auto.
    + destruct (E26_D26 (Z.rem (t + MAX_CHECK_SUM - rs) 26)) as (x & Hx & _);
        [unfold MAX_CHECK_SUM; Z.to_euclidean_division_equations; nia|].
      rewrite Hx, He. exists (chr (65 + x) :: out). simpl. auto.
Qed.

Lemma decrypt_loop_ok_valid s : forall i cks r,
  enigma2_decrypt_loop i cks s = Ok r -> Forall (fun c => valid_b c = true) s.
Proof.
  induction s as [|a s IH]; intros i cks r H; [constructor|].
  simpl in H. unfold at_ in H. unfold valid_b.
  destruct (isdigit a) eqn:Hd.
  - constructor; [rewrite Hd; reflexivity|].
    match type of H with context [if ?b then _ else _] => destruct b end; [|discriminate].
    destruct (enigma2_decrypt_loop _ _ s) eqn:E; [|discriminate]. eauto.
  - match type of H with context [if ?b then _ else _] => destruct b eqn:Hb end;
      [|discriminate].
    destruct (enigma2_decrypt_loop _ _ s) eqn:E; [|discriminate].
    constructor; [|eauto].
    pose proof (uc_bound a). revert Hd Hb. unfold isupper, isdigit, in_range, ord.
    simpl length. intros Hd Hb. zbool; try discriminate; reflexivity || lia.
Qed.

Lemma c_decrypt_loop_out fuel : forall index xv input out,
  enigma_c_decrypt_loop input index xv fuel = Ok out ->
  length out = fuel /\ Forall (fun c => (isdigit c || in_range 97 102 c) = true) out.
Proof.
  induction fuel as [|fuel IH]; intros index xv input out H.
  - injection H as <-. auto.
  - cbn [enigma_c_decrypt_loop] in H. unfold str_at in H.
    destruct (nth_error input index) as [a|]; [|discriminate].
    destruct (negb (isxdigit (tolower a))); [discriminate|].
    match type of H with
    | (match ?m with Ok _ => _ | Fail _ => _ end) = _ => destruct m as [rest|] eqn:E
    end; [|discriminate].
    injection H as <-. destruct (IH _ _ _ _ E) as (Hl & Hf).
    match goal with |- context [hex_char ?e :: rest] => set (tp := e) end.
    assert (Htp : 0 <= tp < 16)
      by (subst tp; match goal with |- context [Z.rem ?x 16 <? 0] =>
            destruct (Z.ltb_spec (Z.rem x 16) 0) end;
          Z.to_euclidean_division_equations; lia).
    destruct (hex_char_facts tp Htp) as (_ & _ & _ & Hc).
    simpl. split; [lia|]. constructor; auto.
Qed.

Lemma reversed_serial_12 dec :
  length dec = 12%nat -> reversed_serial_loop dec 0 10 = Ok (rev (firstn 10 dec)).
Proof.
  intros H. do 12 (destruct dec as [|? dec]; [discriminate|]).
  destruct dec; [reflexivity|discriminate].
Qed.

(** * Claims *)

(** C1. The known vectors: Cipher-A encodes reverse("0003333016"+"4"+"0")
    to "5dabade112dd"; Cipher-B encodes "00"+product+serial+option to the
    three listed keys; Cipher-B decode of "9225940719507747" is non-empty
    with product "6963", serial "1234567" and option "007". *)
Theorem known_vectors :
  enigma_c_encrypt (assemble_c (L "0003333016") "4"%char) 12 = Ok (L "5dabade112dd") /\
  enigma2_c_encrypt (assemble_2 (L "6963") (L "0000607") (L "007")) = Ok (L "6406257948597747") /\
  enigma2_c_encrypt (assemble_2 (L "6963") (L "1234567") (L "007")) = Ok (L "9225940719507747") /\
  enigma2_c_encrypt (assemble_2 (L "7001") (L "1234567") (L "002")) = Ok (L "8944937150971162") /\
  exists dec, enigma2_c_decrypt (L "9225940719507747") = Ok dec /\ dec <> [] /\
    substr dec PRODUCT_LOCATION PRODUCT_CODE_SIZE = Ok (L "6963") /\
    substr dec SERIAL_LOCATION SERIAL_NUMBER_SIZE_ENIGMA2 = Ok (L "1234567") /\
    substr dec OPTION_LOCATION OPTION_CODE_SIZE = Ok (L "007").
Proof.
  split; [vm_compute; reflexivity|].
  split; [vm_compute; reflexivity|].
  split; [vm_compute; reflexivity|].
  split; [vm_compute; reflexivity|].
  exists (L "8569631234567007").
  split; [vm_compute; reflexivity|]. split; [discriminate|].
  split; [|split]; vm_compute; reflexivity.
Qed.

(** C2. For every 16-character Cipher-B plaintext [P] of digits and
    uppercase letters, Decode(Encode(P)) succeeds with a non-empty result
    that is exactly the plaintext after Encode's checksum step: it agrees
    with [P] on positions 2-15 and carries at positions 0-1 the two
    checksum digits Encode wrote there. *)
Theorem enigma2_decode_encode (P : list ascii) :
  length P = KEY_LENGTH -> Forall (fun c => valid_b c = true) P ->
  exists K D, enigma2_c_encrypt P = Ok K /\ enigma2_c_decrypt K = Ok D /\
    D = write_checksum P /\ skipn 2 D = skipn 2 P /\ D <> [] /\
    Forall (fun c => isdigit c = true) (firstn 2 D).
Proof.
  intros Hlen Hv.
  destruct (enigma2_encrypt_decrypt P Hlen Hv) as (K & He & Hd & _).
  destruct (write_checksum_shape P (Forall_skipn_l _ 2 P Hv)) as (d0 & d1 & Hw & H0 & H1 & _).
  exists K, (write_checksum P). repeat split; auto.
  - rewrite Hw. discriminate.
  - rewrite Hw. simpl. constructor; [apply digit_out; exact H0|].
    constructor; [apply digit_out; exact H1|constructor].
Qed.

Lemma enigma2_decode_encode_witness :
  length (assemble_2 (L "6963") (L "1234567") (L "007")) = KEY_LENGTH /\
  exists K D, enigma2_c_encrypt (assemble_2 (L "6963") (L "1234567") (L "007")) = Ok K /\
    enigma2_c_decrypt K = Ok D /\
    D = write_checksum (assemble_2 (L "6963") (L "1234567") (L "007")) /\
    skipn 2 D = skipn 2 (assemble_2 (L "6963") (L "1234567") (L "007")) /\ D <> [] /\
    Forall (fun c => isdigit c = true) (firstn 2 D).
Proof.
  split; [reflexivity|].
  apply enigma2_decode_encode; [reflexivity|].
  vm_compute. repeat constructor.
Defined.

(** C3 (as it is written: Decode(Encode(P)) == P for every 12-hex-digit P)
    fails on an uppercase hex digit: Encode reads "A" as "a" and Decode
    writes lowercase. *)
Lemma enigma_c_uppercase_roundtrip_counterexample :
  enigma_c_encrypt (L "A00000000000") 12 = Ok (L "fb5ef7d074bb") /\
  enigma_c_decrypt (L "fb5ef7d074bb") 12 = Ok (L "a00000000000") /\
  L "a00000000000" <> L "A00000000000".
Proof.
  split; [vm_compute; reflexivity|]. split; [vm_compute; reflexivity|]. discriminate.
Qed.

(** C3 (amended). For every 12-character plaintext [P] of hexadecimal
    digits (either case), Encode succeeds and Decode(Encode(P)) is [P] with
    its hex letters lowered; it is [P] itself when [P] has no uppercase
    letter. *)
Theorem enigma_c_decode_encode (P : list ascii) :
  length P = 12%nat -> Forall (fun c => isxdigit c = true) P ->
  exists K, enigma_c_encrypt P 12 = Ok K /\ length K = 12%nat /\
    enigma_c_decrypt K 12 = Ok (map tolower P) /\
    (Forall (fun c => isupper c = false) P -> enigma_c_decrypt K 12 = Ok P).
Proof.
  intros Hlen Hv.
  destruct (c_encrypt_decrypt_loop 12 0 0 P) as (K & He & Hl & Hd).
  - lia.
  - lia.
  - rewrite skipn_O, firstn_all2 by lia. exact Hv.
  - assert (HdK : enigma_c_decrypt K 12 = Ok (map tolower P)).
    { unfold enigma_c_decrypt. rewrite Hd.
      - rewrite skipn_O, firstn_all2 by lia. reflexivity.
      - rewrite skipn_O, firstn_all2 by lia. reflexivity.
      - lia. }
    exists K. split; [exact He|]. split; [exact Hl|]. split; [exact HdK|].
    intros Hu. rewrite HdK. f_equal.
    clear -Hu. induction Hu as [|c P Hc _ IH]; [reflexivity|].
    simpl. rewrite IH. unfold tolower. rewrite Hc. reflexivity.
Qed.

Lemma enigma_c_decode_encode_witness :
  length (L "A0f3c9B21e07") = 12%nat /\
  exists K, enigma_c_encrypt (L "A0f3c9B21e07") 12 = Ok K /\ length K = 12%nat /\
    enigma_c_decrypt K 12 = Ok (map tolower (L "A0f3c9B21e07")) /\
    (Forall (fun c => isupper c = false) (L "A0f3c9B21e07") ->
     enigma_c_decrypt K 12 = Ok (L "A0f3c9B21e07")).
Proof.
  split; [reflexivity|].
  apply enigma_c_decode_encode; [reflexivity|].
  vm_compute. repeat constructor.
Defined.

(** C6. The master bypass: for every option and serial number the key
    "bladerules" validates, before any decoding (the key itself is not hex);
    the comparison is case-sensitive: "BladeRules" goes on to the decoder,
    which rejects it. *)
Theorem nettool_master_bypass :
  (forall option serial, enigma_c_check_option_key option BLADERULES serial = Ok true) /\
  (forall option serial, enigma_c_check_option_key option (L "BladeRules") serial = Fail Exit1).
Proof. split; intros option serial; reflexivity. Qed.

(** C9. Each of the five rotor tables sorts to 0..N-1 and is a permutation
    of it, and the Cipher-B decode tables invert the encode tables. *)
Theorem rotor_tables_bijective :
  sort_z ENIGMA_C_ROTOR = iota_z 16 /\ Permutation ENIGMA_C_ROTOR (iota_z 16) /\
  sort_z ENIGMA2_E_ROTOR_10 = iota_z 10 /\ Permutation ENIGMA2_E_ROTOR_10 (iota_z 10) /\
  sort_z ENIGMA2_D_ROTOR_10 = iota_z 10 /\ Permutation ENIGMA2_D_ROTOR_10 (iota_z 10) /\
  sort_z ENIGMA2_E_ROTOR_26 = iota_z 26 /\ Permutation ENIGMA2_E_ROTOR_26 (iota_z 26) /\
  sort_z ENIGMA2_D_ROTOR_26 = iota_z 26 /\ Permutation ENIGMA2_D_ROTOR_26 (iota_z 26) /\
  (forall x, 0 <= x < 10 ->
     exists y, at_ ENIGMA2_E_ROTOR_10 x = Ok y /\ at_ ENIGMA2_D_ROTOR_10 y = Ok x) /\
  (forall x, 0 <= x < 26 ->
     exists y, at_ ENIGMA2_E_ROTOR_26 x = Ok y /\ at_ ENIGMA2_D_ROTOR_26 y = Ok x).
Proof.
  assert (Hp : forall t n, sort_z t = iota_z n -> Permutation t (iota_z n)).
  { intros t n H. rewrite <- H. apply Permutation_sym, sort_z_perm. }
  repeat split; try (apply Hp); try (vm_compute; reflexivity).
  - intros x Hx. destruct (E10_D10 x Hx) as (y & H1 & _ & H2). eauto.
  - intros x Hx. destruct (E26_D26 x Hx) as (y & H1 & _ & H2). eauto.
Qed.

Lemma rotor_tables_bijective_witness :
  (exists y, at_ ENIGMA2_E_ROTOR_10 3 = Ok y /\ at_ ENIGMA2_D_ROTOR_10 y = Ok 3) /\
  (exists y, at_ ENIGMA2_E_ROTOR_26 17 = Ok y /\ at_ ENIGMA2_D_ROTOR_26 y = Ok 17).
Proof.
  destruct rotor_tables_bijective as (_ & _ & _ & _ & _ & _ & _ & _ & _ & _ & H10 & H26).
  split; [apply H10 | apply H26]; lia.
Defined.

(** The Cipher-B half of the validation symmetry: a key encoded from
    "00"+product+serial+option validates exactly for the option's value. *)
Lemma enigma2_validation_symmetry product serial option opt :
  length product = 4%nat -> length serial = 7%nat -> length option = 3%nat ->
  Forall (fun c => isdigit c = true) (product ++ serial ++ option) ->
  exists K, enigma2_c_encrypt (assemble_2 product serial option) = Ok K /\
    enigma2_c_check_option_key opt K = Ok (digits_value option =? opt).
Proof.
  intros Hp Hs Ho Hd.
  set (P := assemble_2 product serial option).
  assert (HvP : Forall (fun c => valid_b c = true) P).
  { unfold P, assemble_2. simpl. constructor; [reflexivity|]. constructor; [reflexivity|].
    eapply Forall_impl; [|exact Hd]. intros c Hc. unfold valid_b. rewrite Hc. reflexivity. }
  assert (HlP : length P = KEY_LENGTH).
  { unfold P, assemble_2. simpl. rewrite !length_app, Hp, Hs, Ho. reflexivity. }
  destruct (enigma2_encrypt_decrypt P HlP HvP) as (K & He & Hdk & Hf).
  exists K. split; [exact He|].
  destruct (write_checksum_shape P (Forall_skipn_l _ 2 P HvP)) as (d0 & d1 & Hw & _).
  assert (HK : K <> []).
  { intros ->. apply Forall2_length in Hf. rewrite Hw in Hf. discriminate. }
  unfold enigma2_c_check_option_key. destruct K as [|k K]; [congruence|].
  rewrite Hdk, Hw.
  assert (Hopt : Forall (fun c => isdigit c = true) option)
    by (do 2 apply Forall_app in Hd as [_ Hd]; exact Hd).
  unfold P, assemble_2.
  do 4 (destruct product as [|? product]; [discriminate|]).
  destruct product; [|discriminate].
  do 7 (destruct serial as [|? serial]; [discriminate|]).
  destruct serial; [|discriminate].
  do 3 (destruct option as [|? option]; [discriminate|]).
  destruct option; [|discriminate].
  cbn [substr skipn firstn app L list_ascii_of_string length Nat.leb OPTION_LOCATION
       OPTION_CODE_SIZE CHECK_SUM_SIZE PRODUCT_CODE_SIZE SERIAL_NUMBER_SIZE_ENIGMA2 Nat.add].
  rewrite stoi_field.
  - rewrite digit_prefix_all by exact Hopt. reflexivity.
  - eapply Forall_impl; [|exact Hopt]. intros c Hc. apply stoi_plain_valid.
    unfold valid_b. rewrite Hc. reflexivity.
  - lia.
Qed.

(** C4 (Cipher-A half). The key the NetTool generator produces for serial
    0003333016 and option 4 is rejected by the NetTool check for that same
    serial and option. *)
Lemma nettool_generated_key_rejected :
  enigma_c_encrypt (assemble_c (L "0003333016") "4"%char) 12 = Ok (L "5dabade112dd") /\
  enigma_c_decrypt (L "5dabade112dd") 12 = Ok (L "046103333000") /\
  enigma_c_check_option_key 4 (L "5dabade112dd") (L "0003333016") = Ok false.
Proof. split; [|split]; vm_compute; reflexivity. Qed.

(** C5. For every 16-character key of digits and uppercase letters, decode
    runs its loop to a 16-character plaintext [dec] and returns [dec] when
    the accumulated checksum (the loop's sum of [i + d + i*d] plus eight
    times the value at position 1) is 0 mod 100, and the empty string
    otherwise: a normal result in both cases, never a failure. *)
Theorem enigma2_checksum_gate (K : list ascii) :
  length K = KEY_LENGTH -> Forall (fun c => valid_b c = true) K ->
  exists dec,
    enigma2_decrypt_loop 0 0 K = Ok (dec, checksum_loop 0 0 dec) /\
    length dec = KEY_LENGTH /\
    enigma2_c_decrypt K = Ok (if Z.rem (decoded_checksum dec) 100 =? 0 then dec else []) /\
    (enigma2_c_decrypt K = Ok [] <-> decoded_checksum dec mod 100 <> 0).
Proof.
  intros Hlen Hv.
  destruct (decrypt_loop_valid K 0 0 Hv) as (dec & Hl & Hf); try lia.
  assert (Hld : length dec = KEY_LENGTH) by (rewrite <- (Forall2_length Hf); exact Hlen).
  assert (Hd : enigma2_c_decrypt K =
               Ok (if Z.rem (decoded_checksum dec) 100 =? 0 then dec else [])).
  { unfold enigma2_c_decrypt. rewrite Hlen, Nat.eqb_refl, Hl. cbn [fst snd].
    unfold decoded_checksum. destruct (_ =? 0); reflexivity. }
  exists dec. split; [exact Hl|]. split; [exact Hld|]. split; [exact Hd|].
  rewrite Hd. pose proof (Z.rem_mod_eq_0 (decoded_checksum dec) 100 ltac:(lia)) as Hr.
  destruct (Z.eqb_spec (Z.rem (decoded_checksum dec) 100) 0) as [E|E]; split; intros H.
  - injection H as ->. discriminate.
  - exfalso. apply H. apply Hr. exact E.
  - intros Hm. apply E. apply Hr. exact Hm.
  - reflexivity.
Qed.

Lemma enigma2_checksum_gate_witness :
  length (L "9225940719507747") = KEY_LENGTH /\
  exists dec,
    enigma2_decrypt_loop 0 0 (L "9225940719507747") = Ok (dec, checksum_loop 0 0 dec) /\
    length dec = KEY_LENGTH /\
    enigma2_c_decrypt (L "9225940719507747") =
      Ok (if Z.rem (decoded_checksum dec) 100 =? 0 then dec else []) /\
    (enigma2_c_decrypt (L "9225940719507747") = Ok [] <-> decoded_checksum dec mod 100 <> 0).
Proof.
  split; [reflexivity|].
  apply enigma2_checksum_gate; [reflexivity|].
  vm_compute. repeat constructor.
Defined.

(** C10. Cipher-B keeps the class of every position: Encode of a
    16-character digit/uppercase plaintext returns a 16-character key whose
    position [i] is a digit (a letter) exactly when position [i] of the
    checksum-written plaintext is, so positions 0-1 are digits and the key is
    uppercase-alphanumeric; a non-empty Decode of such a key has a digit (a
    letter) at [i] exactly when the key has. *)
Theorem enigma2_class_preservation :
  (forall P, length P = KEY_LENGTH -> Forall (fun c => valid_b c = true) P ->
     exists K, enigma2_c_encrypt P = Ok K /\ length K = KEY_LENGTH /\
       skipn 2 (write_checksum P) = skipn 2 P /\
       Forall2 same_class (write_checksum P) K /\
       Forall (fun c => isdigit c = true) (firstn 2 K) /\
       Forall (fun c => valid_b c = true) K) /\
  (forall K D, length K = KEY_LENGTH -> Forall (fun c => valid_b c = true) K ->
     enigma2_c_decrypt K = Ok D -> D <> [] -> Forall2 same_class K D).
Proof.
  split.
  - intros P Hlen Hv.
    destruct (enigma2_encrypt_decrypt P Hlen Hv) as (K & He & _ & Hf).
    destruct (write_checksum_shape P (Forall_skipn_l _ 2 P Hv)) as (d0 & d1 & Hw & H0 & H1 & _).
    assert (Hvw : Forall (fun c => valid_b c = true) (write_checksum P)).
    { rewrite Hw. unfold valid_b.
      constructor; [rewrite (proj1 (digit_out d0 H0)); reflexivity|].
      constructor; [rewrite (proj1 (digit_out d1 H1)); reflexivity|].
      apply Forall_skipn_l. exact Hv. }
    exists K. split; [exact He|]. split.
    { rewrite <- (Forall2_length Hf), Hw. cbn [length]. rewrite length_skipn, Hlen. reflexivity. }
    split; [rewrite Hw; reflexivity|]. split; [exact Hf|].
    split; [|exact (Forall2_same_class_valid _ _ Hf Hvw)].
    rewrite Hw in Hf. inversion Hf as [|? k0 ? K1 [Hc0 _] Hf1]; subst.
    inversion Hf1 as [|? k1 ? K2 [Hc1 _] _]; subst. simpl.
    constructor; [rewrite <- Hc0; apply digit_out; exact H0|].
    constructor; [rewrite <- Hc1; apply digit_out; exact H1|constructor].
  - intros K D Hlen Hv HD Hne.
    destruct (decrypt_loop_valid K 0 0 Hv) as (dec & Hl & Hf); try lia.
    unfold enigma2_c_decrypt in HD. rewrite Hlen, Nat.eqb_refl, Hl in HD. cbn [fst snd] in HD.
    destruct (negb _); injection HD as <-; [congruence|exact Hf].
Qed.

Lemma enigma2_class_preservation_witness :
  (exists K, enigma2_c_encrypt (L "00A9631B3456Z007") = Ok K /\ length K = KEY_LENGTH /\
     skipn 2 (write_checksum (L "00A9631B3456Z007")) = skipn 2 (L "00A9631B3456Z007") /\
     Forall2 same_class (write_checksum (L "00A9631B3456Z007")) K /\
     Forall (fun c => isdigit c = true) (firstn 2 K) /\
     Forall (fun c => valid_b c = true) K) /\
  Forall2 same_class (L "9225940719507747") (L "8569631234567007").
Proof.
  destruct enigma2_class_preservation as [HE HD]. split.
  - apply HE; [reflexivity|]. vm_compute. repeat constructor.
  - apply HD; [reflexivity | vm_compute; repeat constructor | vm_compute; reflexivity | discriminate].
Defined.

(** C7 (as it is written: every transform signals InvalidInput on a
    character outside its class) fails for Cipher-B Encode, which checks only
    the length and encodes a lowercase letter or a dash like any letter. *)
Lemma enigma2_encrypt_accepts_other_chars :
  valid_b "a"%char = false /\ In "a"%char (L "006963123456700a") /\
  enigma2_c_encrypt (L "006963123456700a") = Ok (L "922594071950774M") /\
  valid_b "-"%char = false /\ In "-"%char (L "00696312345670-7") /\
  enigma2_c_encrypt (L "00696312345670-7") = Ok (L "92259407195077R7").
Proof.
  repeat split; try (vm_compute; reflexivity); simpl; tauto.
Qed.

(** C7 (amended). Cipher-A Encode and Decode re-validate their 12-character
    input: any character that is not a hex digit (either case) ends the
    operation with [std::exit(1)], and otherwise they return 12 characters.
    Cipher-B Encode checks only the length: every 16-character input gives a
    normal 16-character output. Cipher-B Decode also checks only the length:
    a 16-character key of digits and A-Z gives a normal result, and a key
    with any other character fails with the out-of-range exception of the
    rotor-table lookup. *)
Theorem input_class_checks :
  (forall P, length P = 12%nat ->
     (Forall (fun c => isxdigit c = true) P ->
        exists K, enigma_c_encrypt P 12 = Ok K /\ length K = 12%nat) /\
     ((exists c, In c P /\ isxdigit c = false) -> enigma_c_encrypt P 12 = Fail Exit1)) /\
  (forall K, length K = 12%nat ->
     (Forall (fun c => isxdigit c = true) K ->
        exists P, enigma_c_decrypt K 12 = Ok P /\ length P = 12%nat) /\
     ((exists c, In c K /\ isxdigit c = false) -> enigma_c_decrypt K 12 = Fail Exit1)) /\
  (forall P, length P = KEY_LENGTH ->
     exists K, enigma2_c_encrypt P = Ok K /\ length K = KEY_LENGTH) /\
  (forall K, length K = KEY_LENGTH ->
     (Forall (fun c => valid_b c = true) K -> exists D, enigma2_c_decrypt K = Ok D) /\
     ((exists c, In c K /\ valid_b c = false) -> enigma2_c_decrypt K = Fail OutOfRange)).
Proof.
  split; [|split; [|split]].
  - intros P Hlen. split.
    + intros Hv. destruct (c_encrypt_decrypt_loop 12 0 0 P) as (K & He & Hl & _);
        [lia|lia|rewrite skipn_O, firstn_all2 by lia; exact Hv|].
      exists K. auto.
    + intros Hb. apply c_encrypt_loop_bad; [lia|].
      rewrite skipn_O, firstn_all2 by lia. exact Hb.
  - intros K Hlen. split.
    + intros Hv. destruct (c_decrypt_loop_ok 12 0 0 K) as (P & Hd & Hl & _);
        [lia|rewrite skipn_O, firstn_all2 by lia; exact Hv|].
      exists P. auto.
    + intros Hb. apply c_decrypt_loop_bad; [lia|].
      rewrite skipn_O, firstn_all2 by lia. exact Hb.
  - intros P Hlen. unfold enigma2_c_encrypt. rewrite Hlen, Nat.eqb_refl.
    destruct P as [|p0 [|p1 rest]]; try discriminate.
    destruct (encrypt_loop_total (write_checksum (p0 :: p1 :: rest)) 0 0) as (K & He & Hl);
      [lia|lia| |].
    + unfold write_checksum. cbn [length skipn]. simpl in Hlen. rewrite Hlen. reflexivity.
    + exists K. split; [exact He|]. rewrite Hl. unfold write_checksum. cbn [length skipn].
      exact Hlen.
  - intros K Hlen. split.
    + intros Hv. destruct (decrypt_loop_valid K 0 0 Hv) as (dec & Hl & _); try lia.
      unfold enigma2_c_decrypt. rewrite Hlen, Nat.eqb_refl, Hl. cbn [fst snd].
      destruct (negb _); eauto.
    + intros (c & Hin & Hc). unfold enigma2_c_decrypt. rewrite Hlen, Nat.eqb_refl.
      destruct (enigma2_decrypt_loop 0 0 K) as [r|f] eqn:E.
      * exfalso. exact (Forall_not_bad _ _ _ (decrypt_loop_ok_valid _ _ _ _ E) Hin Hc).
      * rewrite (decrypt_loop_fail _ _ _ _ E). reflexivity.
Qed.

Lemma input_class_checks_witness :
  (exists K, enigma_c_encrypt (L "046103333000") 12 = Ok K /\ length K = 12%nat) /\
  enigma_c_decrypt (L "5dabade112dg") 12 = Fail Exit1 /\
  (exists K, enigma2_c_encrypt (L "006963123456700a") = Ok K /\ length K = KEY_LENGTH) /\
  enigma2_c_decrypt (L "922594071950774m") = Fail OutOfRange.
Proof.
  destruct input_class_checks as (HA & HB & HC & HD). split; [|split; [|split]].
  - apply (HA (L "046103333000") eq_refl). vm_compute. repeat constructor.
  - apply (HB (L "5dabade112dg") eq_refl). exists "g"%char.
    split; [simpl; tauto | vm_compute; reflexivity].
  - apply (HC (L "006963123456700a") eq_refl).
  - apply (HD (L "922594071950774m") eq_refl). exists "m"%char.
    split; [simpl; tauto | vm_compute; reflexivity].
Defined.

(** C8 (as it is written: an option substring that is not a decimal integer
    makes the check fail loudly and never validate) fails: [std::stoi] reads
    the digit prefix and ignores the rest, so the Cipher-B option field "00A"
    validates as option 0 and the Cipher-A field "4a" as option 4. *)
Lemma option_field_truncated :
  enigma2_c_decrypt (L "524713590175993A") = Ok (L "076963123456700A") /\
  substr (L "076963123456700A") OPTION_LOCATION OPTION_CODE_SIZE = Ok (L "00A") /\
  enigma2_c_check_option_key 0 (L "524713590175993A") = Ok true /\
  enigma_c_decrypt (L "a4a0da943091") 12 = Ok (L "61033330004a") /\
  substr (L "61033330004a") 10 2 = Ok (L "4a") /\
  enigma_c_check_option_key 4 (L "a4a0da943091") (L "0003333016") = Ok true.
Proof. repeat split; vm_compute; reflexivity. Qed.

(** C8 (amended). Both checks parse the option field (Cipher-B decoded
    positions 13-15, Cipher-A decoded positions 10-11) with [std::stoi]: a
    field that does not start with a decimal digit raises
    [std::invalid_argument]; otherwise its leading digits are read and the
    rest of the field is ignored. *)
Theorem option_field_parse :
  (forall option K dec,
     length K = KEY_LENGTH -> Forall (fun c => valid_b c = true) K ->
     enigma2_c_decrypt K = Ok dec -> dec <> [] ->
     enigma2_c_check_option_key option K =
       match digit_prefix (firstn OPTION_CODE_SIZE (skipn OPTION_LOCATION dec)) with
       | [] => Fail InvalidArgument
       | ds => Ok (digits_value ds =? option)
       end) /\
  (forall option K serial dec,
     K <> [] -> K <> BLADERULES -> enigma_c_decrypt K 12 = Ok dec ->
     rev (firstn 10 dec) = serial ->
     enigma_c_check_option_key option K serial =
       match digit_prefix (firstn 2 (skipn 10 dec)) with
       | [] => Fail InvalidArgument
       | ds => Ok (digits_value ds =? option)
       end).
Proof.
  split.
  - intros option K dec Hlen Hv HD Hne.
    destruct (decrypt_loop_valid K 0 0 Hv) as (dec' & Hl & Hf); try lia.
    assert (Hdec : dec' = dec).
    { unfold enigma2_c_decrypt in HD. rewrite Hlen, Nat.eqb_refl, Hl in HD.
      cbn [fst snd] in HD. destruct (negb _); injection HD as <-; [congruence|reflexivity]. }
    subst dec'.
    pose proof (Forall2_same_class_valid _ _ Hf Hv) as Hvd.
    pose proof (Forall2_length Hf) as Hld.
    unfold enigma2_c_check_option_key.
    destruct K as [|k K]; [discriminate|]. rewrite HD.
    destruct dec as [|d dec]; [congruence|].
    unfold substr. rewrite <- Hld, Hlen. cbn [Nat.leb OPTION_LOCATION KEY_LENGTH
      CHECK_SUM_SIZE PRODUCT_CODE_SIZE SERIAL_NUMBER_SIZE_ENIGMA2 OPTION_CODE_SIZE Nat.add].
    rewrite stoi_field.
    + destruct (digit_prefix _); reflexivity.
    + apply Forall_firstn_l, Forall_skipn_l.
      eapply Forall_impl; [|exact Hvd]. intros c Hc. apply stoi_plain_valid. exact Hc.
    + rewrite length_firstn. unfold OPTION_CODE_SIZE. lia.
  - intros option K serial dec HK Hb HD Hs.
    destruct (c_decrypt_loop_out 12 0 0 K dec HD) as (Hl & Hc).
    unfold enigma_c_check_option_key.
    destruct K as [|k K]; [congruence|].
    unfold str_eqb at 1. destruct (list_eq_dec ascii_dec (k :: K) BLADERULES); [congruence|].
    rewrite HD, reversed_serial_12 by exact Hl.
    unfold str_eqb. destruct (list_eq_dec ascii_dec (rev (firstn 10 dec)) serial);
      [|congruence]. cbn [negb].
    unfold substr. rewrite Hl. cbn [Nat.leb].
    rewrite stoi_field.
    + destruct (digit_prefix _); reflexivity.
    + apply Forall_firstn_l, Forall_skipn_l.
      eapply Forall_impl; [|exact Hc]. intros c Hx. apply stoi_plain_hex. exact Hx.
    + rewrite length_firstn. lia.
Qed.

Lemma option_field_parse_witness :
  enigma2_c_check_option_key 0 (L "524713590175993A") =
    match digit_prefix (firstn OPTION_CODE_SIZE (skipn OPTION_LOCATION (L "076963123456700A"))) with
    | [] => Fail InvalidArgument
    | ds => Ok (digits_value ds =? 0)
    end /\
  enigma_c_check_option_key 4 (L "a4a0da943091") (L "0003333016") =
    match digit_prefix (firstn 2 (skipn 10 (L "61033330004a"))) with
    | [] => Fail InvalidArgument
    | ds => Ok (digits_value ds =? 4)
    end.
Proof.
  destruct option_field_parse as [HB HA]. split.
  - apply HB; [reflexivity | vm_compute; repeat constructor | vm_compute; reflexivity |
               discriminate].
  - apply HA; [discriminate | vm_compute; discriminate | vm_compute; reflexivity |
               vm_compute; reflexivity].
Defined.

(** * The console layer *)

Lemma key_groups_shift k : forall i, key_groups (i + 4) k = key_groups i k.
Proof.
  induction k as [|c k IH]; intros i; [reflexivity|].
  cbn [key_groups]. replace (S (i + 4)) with (S i + 4)%nat by lia. rewrite IH.
  replace (Nat.modulo (i + 4) 4) with (Nat.modulo i 4); [reflexivity|].
  replace (i + 4)%nat with (i + 1 * 4)%nat by lia. rewrite Nat.Div0.mod_add. reflexivity.
Qed.

Lemma key_groups_chunks n : forall k, (length k <= n)%nat ->
  key_groups 0 k = flat_map (fun g => " "%char :: g) (chunks4 k) /\ concat (chunks4 k) = k.
Proof.
  induction n as [|n IH]; intros k Hk.
  - destruct k; [split; reflexivity | simpl in Hk; lia].
  - destruct k as [|a [|b [|c [|d r]]]]; try (split; reflexivity).
    destruct (IH r) as (H1 & H2); [simpl in Hk; lia|].
    cbn [chunks4 flat_map concat]. split.
    + cbn [key_groups Nat.modulo Nat.eqb app]. simpl (Nat.modulo _ _).
      change 4%nat with (0 + 4)%nat. rewrite key_groups_shift, H1. reflexivity.
    + rewrite H2. reflexivity.
Qed.

(** X1. [print_option_key] prints "Option Key:" and the key in groups of four, each after one space, then a newline, reading nothing and writing nothing to stderr; for a key without spaces, removing the spaces from the groups gives the key back. *)
Theorem print_option_key_groups (key : list ascii) (w : world) :
  print_option_key key w =
    (inl tt, mkWorld (cin w)
               (cout w ++ L "Option Key:" ++ flat_map (fun g => " "%char :: g) (chunks4 key) ++ [nl])
               (cerr w)) /\
  (~ In " "%char key ->
     filter (fun c => negb (Ascii.eqb c " ")) (flat_map (fun g => " "%char :: g) (chunks4 key)) = key).
Proof.
  destruct (key_groups_chunks (length key) key (le_n _)) as (H1 & H2). split.
  - unfold print_option_key, put_out. rewrite H1. reflexivity.
  - intros Hn. clear H1.
    assert (E : forall l, ~ In " "%char l -> filter (fun c => negb (Ascii.eqb c " ")) l = l).
    { induction l as [|c l IH]; intros Hl; [reflexivity|]. cbn [filter].
      destruct (Ascii.eqb_spec c " ") as [->|Hc]; [exfalso; apply Hl; left; reflexivity|].
      cbn [negb]. rewrite IH; [reflexivity|]. intro Hi. apply Hl. right. exact Hi. }
    transitivity (filter (fun c => negb (Ascii.eqb c " ")) (concat (chunks4 key))).
    + clear. induction (chunks4 key) as [|g gs IH]; [reflexivity|].
      cbn [flat_map concat]. rewrite !filter_app, IH. reflexivity.
    + rewrite H2. apply E. exact Hn.
Qed.

Lemma prompt_rounds_done {A : Type} p (step : list ascii -> A + list ascii) lines :
  forall out a rest out',
  prompt_rounds p step lines out = (inl a, rest, out') ->
  exists pre l, step l = inl a /\ Forall (rejected step) pre /\
    (lines = pre ++ l :: rest \/ (lines = pre /\ l = [] /\ rest = [])).
Proof.
  induction lines as [|x lines IH]; intros out a rest out' H; cbn [prompt_rounds] in H.
  - destruct (step []) as [b|m] eqn:E; inversion H; subst.
    exists [], []. split; [exact E|]. split; [constructor|]. right. auto.
  - destruct (step x) as [b|m] eqn:E.
    + inversion H; subst. exists [], x. split; [exact E|]. split; [constructor|]. left. reflexivity.
    + destruct (IH _ _ _ _ H) as (pre & l & Hl & Hpre & Hc).
      exists (x :: pre), l. split; [exact Hl|]. split; [constructor; [exists m; exact E|exact Hpre]|].
      destruct Hc as [-> | (-> & -> & ->)]; [left | right]; auto.
Qed.

Lemma prompt_rounds_hang {A : Type} p (step : list ascii -> A + list ascii) lines :
  forall out, rejected step [] -> Forall (rejected step) lines ->
  fst (fst (prompt_rounds p step lines out)) = inr Hangs.
Proof.
  induction lines as [|x lines IH]; intros out (m0 & H0) Hall; cbn [prompt_rounds].
  - rewrite H0. reflexivity.
  - inversion Hall as [|? ? (m & Hm) Hrest]; subst. rewrite Hm. apply IH; [exists m0; exact H0|exact Hrest].
Qed.

Lemma prompt_loop_done {A : Type} p (step : list ascii -> A + list ascii) w a w' :
  prompt_loop p step w = (inl a, w') ->
  exists pre l, step l = inl a /\ Forall (rejected step) pre /\
    (cin w = pre ++ l :: cin w' \/ (cin w = pre /\ l = [] /\ cin w' = [])).
Proof.
  unfold prompt_loop. destruct (prompt_rounds p step (cin w) (cout w)) as [[r rest] out] eqn:E.
  intros H. inversion H; subst. exact (prompt_rounds_done _ _ _ _ _ _ _ E).
Qed.

Lemma prompt_loop_hang {A : Type} p (step : list ascii -> A + list ascii) w :
  rejected step [] -> Forall (rejected step) (cin w) -> fst (prompt_loop p step w) = inr Hangs.
Proof.
  intros H0 H. unfold prompt_loop.
  pose proof (prompt_rounds_hang p step (cin w) (cout w) H0 H) as E.
  destruct (prompt_rounds p step (cin w) (cout w)) as [[r rest] out]. exact E.
Qed.

(** X2. A choice returned by [get_menu_choice] lies in [min_val, max_val] and is the [std::stoi] value of the first accepted line, the lines before it being non-numbers or out of range; if no line is acceptable the loop never ends. *)
Theorem get_menu_choice_spec (prompt : list ascii) (min_val max_val : Z) (w : world) :
  (forall c w', get_menu_choice prompt min_val max_val w = (inl c, w') ->
     min_val <= c <= max_val /\
     exists pre l, cin w = pre ++ l :: cin w' /\ stoi l = Ok c /\
                   Forall (menu_rejects min_val max_val) pre) /\
  (Forall (menu_rejects min_val max_val) (cin w) ->
     fst (get_menu_choice prompt min_val max_val w) = inr Hangs).
Proof.
  assert (Hrej : forall l, menu_rejects min_val max_val l <->
            rejected (fun input => match stoi input with
              | Ok choice => if (min_val <=? choice) && (choice <=? max_val) then inl choice
                             else inr (Ln "Invalid choice, please try again.")
              | Fail _ => inr (Ln "Invalid input, please enter a number.")
              end) l).
  { intros l. unfold menu_rejects, rejected. destruct (stoi l) as [v|f].
    - destruct (Z.leb_spec min_val v), (Z.leb_spec v max_val); cbn [andb];
        split; intros Hx; try (eexists; reflexivity); try lia;
        destruct Hx as (m & Hm); discriminate.
    - split; intros; [eexists; reflexivity | exact I]. }
  split.
  - intros c w' H. destruct (prompt_loop_done _ _ _ _ _ H) as (pre & l & Hl & Hpre & Hc).
    destruct (stoi l) as [v|f] eqn:Es; [|discriminate].
    destruct (Z.leb_spec min_val v), (Z.leb_spec v max_val); cbn [andb] in Hl; try discriminate.
    injection Hl as <-. split; [lia|].
    destruct Hc as [Hc | (_ & -> & _)]; [|discriminate].
    exists pre, l. split; [exact Hc|]. split; [exact Es|].
    eapply Forall_impl; [|exact Hpre]. intros x Hx. apply Hrej. exact Hx.
  - intros Hall. apply prompt_loop_hang.
    + apply Hrej. exact I.
    + eapply Forall_impl; [|exact Hall]. intros x Hx. apply Hrej. exact Hx.
Qed.

Lemma get_menu_choice_spec_witness :
  get_menu_choice (L "? ") 0 8 (mkWorld [L "x"; L "9"; L " 2abc"; L "5"] [] []) =
    (inl 2, mkWorld [L "5"] (L "? " ++ Ln "Invalid input, please enter a number." ++ L "? " ++
                              Ln "Invalid choice, please try again." ++ L "? ") []) /\
  0 <= 2 <= 8 /\
  fst (get_menu_choice (L "? ") 0 4 (mkWorld [L "7"] [] [])) = inr Hangs.
Proof.
  destruct (get_menu_choice_spec (L "? ") 0 8 (mkWorld [L "x"; L "9"; L " 2abc"; L "5"] [] []))
    as [H1 _].
  destruct (get_menu_choice_spec (L "? ") 0 4 (mkWorld [L "7"] [] [])) as [_ H2].
  split; [vm_compute; reflexivity|]. split.
  - apply (H1 2 (mkWorld [L "5"] (L "? " ++ Ln "Invalid input, please enter a number." ++ L "? " ++
                              Ln "Invalid choice, please try again." ++ L "? ") [])).
    vm_compute. reflexivity.
  - apply H2. constructor; [|constructor]. unfold menu_rejects.
    replace (stoi (L "7")) with (Ok 7 : res Z) by (vm_compute; reflexivity). lia.
Defined.

Lemma rotor_at_range j r : at_ ENIGMA_C_ROTOR j = Ok r -> 0 <= r < 16.
Proof.
  intros H. assert (Hj : 0 <= j < 16).
  { unfold at_ in H. destruct (Z.leb_spec 0 j), (Z.ltb_spec j (Z.of_nat (length ENIGMA_C_ROTOR)));
      cbn [andb] in H; try discriminate. simpl in *. lia. }
  destruct (rotor_facts j Hj) as (r' & Hr' & Hb & _). rewrite H in Hr'. injection Hr' as ->.
  exact Hb.
Qed.

Lemma c_encrypt_loop_out fuel : forall index ov input out,
  0 <= ov < 16 -> enigma_c_encrypt_loop input index ov fuel = Ok out ->
  length out = fuel /\ Forall (fun c => (isdigit c || in_range 97 102 c) = true) out.
Proof.
  induction fuel as [|fuel IH]; intros index ov input out Hov H.
  - injection H as <-. auto.
  - cbn [enigma_c_encrypt_loop] in H. unfold str_at in H.
    destruct (nth_error input index) as [a|]; [|discriminate].
    destruct (negb (isxdigit (tolower a))); [discriminate|].
    destruct (at_ ENIGMA_C_ROTOR _) as [r|] eqn:Er; [|discriminate].
    pose proof (lxor_bound r ov (rotor_at_range _ _ Er) Hov) as Hx.
    destruct (enigma_c_encrypt_loop input (S index) (Z.lxor r ov) fuel) as [rest|] eqn:E;
      [|discriminate].
    injection H as <-. destruct (IH _ _ _ _ Hx E) as (Hl & Hf).
    rewrite (Z.rem_small (Z.lxor r ov) 16) by lia.
    destruct (hex_char_facts _ Hx) as (_ & _ & _ & Hc).
    simpl. split; [lia|]. constructor; auto.
Qed.

Lemma to_string_digit d : 0 <= d < 10 -> to_string d = [chr (48 + d)].
Proof.
  intros H. unfold to_string. destruct (Z.ltb_spec d 0); [lia|].
  cbn [dec_digits]. rewrite Z.mod_small by lia. destruct (Z.ltb_spec d 10); [reflexivity|lia].
Qed.

Lemma digits_of_length_spec n s :
  digits_of_length n s = true <-> length s = n /\ Forall (fun c => isdigit c = true) s.
Proof.
  unfold digits_of_length. rewrite andb_true_iff, Nat.eqb_eq, forallb_forall, Forall_forall.
  reflexivity.
Qed.

Lemma isdigit_isxdigit c : isdigit c = true -> isxdigit c = true.
Proof. unfold isxdigit, isdigit. intros ->. reflexivity. Qed.

Lemma isdigit_tolower c : isdigit c = true -> tolower c = c.
Proof. intros H. unfold tolower. destruct (digit_facts c H) as (_ & _ & _ & ->). reflexivity. Qed.

Lemma isdigit_chr d : 0 <= d < 10 -> isdigit (chr (48 + d)) = true.
Proof.
  intros H. unfold isdigit, in_range. rewrite uc_chr by lia.
  apply andb_true_iff. split; apply Z.leb_le; lia.
Qed.

Lemma reverse_key_loop_12 s :
  length s = 12%nat -> reverse_key_loop s 0 12 = Ok (rev s).
Proof.
  intros H. do 12 (destruct s as [|? s]; [discriminate|]).
  destruct s; [reflexivity|discriminate].
Qed.

(** X3. For a 10-digit serial and an option number >= 0, [calculate_nettool_option_key] encrypts the reversal of serial + d + '0' (d the option digit, 0 above 9) and prints the key; the key is 12 characters of 0-9/a-f, passes the key format check and decrypts back to that plaintext. *)
Theorem nettool_generate (serial_number : list ascii) (option_number : Z) (w : world) :
  digits_of_length SERIAL_NUMBER_SIZE_ENIGMAC serial_number = true -> 0 <= option_number ->
  let d := chr (48 + (if option_number <=? 9 then option_number else 0)) in
  exists K,
    enigma_c_encrypt (rev (serial_number ++ [d; "0"%char])) 12 = Ok K /\
    calculate_nettool_option_key serial_number option_number w =
      (inl tt, mkWorld (cin w)
                 (cout w ++ nl :: Ln "Encrypting with Enigma 1..." ++
                  L "Option Key:" ++ key_groups 0 K ++ [nl]) (cerr w)) /\
    valid_nettool_key K = true /\
    Forall (fun c => (isdigit c || in_range 97 102 c) = true) K /\
    enigma_c_decrypt K 12 = Ok (rev (serial_number ++ [d; "0"%char])).
Proof.
  intros Hs Ho d.
  assert (Hd : 0 <= clamp_option option_number < 10 /\
               d = chr (48 + clamp_option option_number)).
  { unfold clamp_option, d. destruct (Z.ltb_spec option_number 0); [lia|].
    destruct (Z.ltb_spec 9 option_number), (Z.leb_spec option_number 9); cbn [orb]; split;
      try reflexivity; lia. }
  destruct Hd as (Hd & Hdd). clearbody d. subst d.
  set (d := clamp_option option_number) in *.
  set (P := rev (serial_number ++ [chr (48 + d); "0"%char])).
  pose proof Hs as Hs'. apply digits_of_length_spec in Hs' as (Hlen & Hdig).
  assert (HP : Forall (fun c => isdigit c = true) P).
  { unfold P. apply Forall_rev, Forall_app. split; [exact Hdig|].
    repeat constructor. apply isdigit_chr. exact Hd. }
  assert (HPl : length P = 12%nat)
    by (unfold P; rewrite length_rev, length_app, Hlen; reflexivity).
  destruct (c_encrypt_decrypt_loop 12 0 0 P) as (K & HK & HKl & HKd); [lia|lia| |].
  { rewrite skipn_O, firstn_all2 by lia. eapply Forall_impl; [|exact HP].
    intros c Hc. apply isdigit_isxdigit. exact Hc. }
  destruct (c_encrypt_loop_out 12 0 0 P K) as (_ & HKc); [lia|exact HK|].
  exists K. split; [exact HK|]. split; [|split; [|split]].
  - unfold calculate_nettool_option_key, read_serial.
    destruct serial_number as [|s0 sr]; [discriminate|].
    cbn [io_bind ret]. rewrite Hs. cbn [negb io_bind ret].
    destruct (Z.ltb_spec option_number 0); [lia|]. cbn [io_bind ret].
    fold d. rewrite (to_string_digit d Hd).
    rewrite reverse_key_loop_12 by (rewrite length_app, Hlen; reflexivity).
    cbn [lift io_bind put_out cin cout cerr].
    match goal with |- context [enigma_c_encrypt ?x 12] =>
      replace (enigma_c_encrypt x 12) with (Ok K : res (list ascii)) by (symmetry; exact HK) end.
    cbn [lift io_bind].
    unfold print_option_key, put_out. cbn [cin cout cerr]. rewrite <- !app_assoc. reflexivity.
  - unfold valid_nettool_key. rewrite HKl. cbn [Nat.eqb]. apply forallb_forall.
    intros c Hc. rewrite Forall_forall in HKc. specialize (HKc c Hc).
    unfold isxdigit. unfold isdigit in HKc.
    apply orb_true_iff in HKc as [H|H]; rewrite H; [reflexivity|].
    rewrite orb_true_r. reflexivity.
  - exact HKc.
  - unfold enigma_c_decrypt. rewrite HKd.
    + rewrite skipn_O, firstn_all2 by lia. f_equal.
      rewrite <- (map_id P) at 2. apply map_ext_in. intros c Hc.
      rewrite Forall_forall in HP. apply isdigit_tolower, HP, Hc.
    + rewrite skipn_O, firstn_all2 by lia. reflexivity.
    + lia.
Qed.

Lemma nettool_generate_witness :
  digits_of_length SERIAL_NUMBER_SIZE_ENIGMAC (L "0003333016") = true /\ 0 <= 4 /\
  exists K,
    enigma_c_encrypt (rev (L "0003333016" ++ [chr (48 + (if 4 <=? 9 then 4 else 0)); "0"%char])) 12 = Ok K /\
    calculate_nettool_option_key (L "0003333016") 4 (mkWorld [] [] []) =
      (inl tt, mkWorld [] ([] ++ nl :: Ln "Encrypting with Enigma 1..." ++
                  L "Option Key:" ++ key_groups 0 K ++ [nl]) []) /\
    valid_nettool_key K = true /\
    Forall (fun c => (isdigit c || in_range 97 102 c) = true) K /\
    enigma_c_decrypt K 12 =
      Ok (rev (L "0003333016" ++ [chr (48 + (if 4 <=? 9 then 4 else 0)); "0"%char])).
Proof.
  split; [reflexivity|]. split; [lia|].
  apply (nettool_generate (L "0003333016") 4 (mkWorld [] [] [])); [reflexivity | lia].
Defined.

(** X4. A non-empty serial that is not 10 digits makes [calculate_nettool_option_key] write "Serial number must be 10 digits" to stderr and exit with status 1, with no other input or output. *)
Theorem nettool_bad_serial (serial_number : list ascii) (option_number : Z) (w : world) :
  serial_number <> [] -> digits_of_length SERIAL_NUMBER_SIZE_ENIGMAC serial_number = false ->
  calculate_nettool_option_key serial_number option_number w =
    (inr (Stopped Exit1), mkWorld (cin w) (cout w) (cerr w ++ Ln "Serial number must be 10 digits")).
Proof.
  intros Hne Hs. unfold calculate_nettool_option_key, read_serial.
  destruct serial_number as [|s0 sr]; [contradiction|].
  cbn [io_bind ret]. rewrite Hs. reflexivity.
Qed.

Lemma nettool_bad_serial_witness :
  calculate_nettool_option_key (L "12345") 4 (mkWorld [] [] []) =
    (inr (Stopped Exit1), mkWorld [] [] ([] ++ Ln "Serial number must be 10 digits")).
Proof.
  apply (nettool_bad_serial (L "12345") 4 (mkWorld [] [] [])); [discriminate | reflexivity].
Defined.

Lemma str_eqb_spec s t : str_eqb s t = true <-> s = t.
Proof. unfold str_eqb. destruct (list_eq_dec ascii_dec s t); split; congruence. Qed.

Lemma ord_digit d : 0 <= d < 10 -> ord (chr (48 + d)) = 48 + d.
Proof. intros H. rewrite ord_low; rewrite uc_chr; lia. Qed.

Lemma nettool_hex_roundtrip P K :
  length P = 12%nat -> Forall (fun c => isxdigit c = true) P ->
  enigma_c_encrypt P 12 = Ok K ->
  length K = 12%nat /\ enigma_c_decrypt K 12 = Ok (map tolower P).
Proof.
  intros HPl HP HK.
  destruct (c_encrypt_decrypt_loop 12 0 0 P) as (K0 & HK0 & HKl & HKd); [lia|lia| |].
  { rewrite skipn_O, firstn_all2 by lia. exact HP. }
  unfold enigma_c_encrypt in HK. rewrite HK in HK0. injection HK0 as <-.
  split; [exact HKl|]. unfold enigma_c_decrypt. rewrite HKd.
  - rewrite skipn_O, firstn_all2 by lia. reflexivity.
  - rewrite skipn_O, firstn_all2 by lia. reflexivity.
  - lia.
Qed.

Lemma nettool_digits_roundtrip P K :
  length P = 12%nat -> Forall (fun c => isdigit c = true) P ->
  enigma_c_encrypt P 12 = Ok K ->
  length K = 12%nat /\ enigma_c_decrypt K 12 = Ok P.
Proof.
  intros HPl HP HK.
  destruct (nettool_hex_roundtrip P K HPl) as (HKl & HD); [|exact HK|].
  { eapply Forall_impl; [|exact HP]. intros c Hc. apply isdigit_isxdigit, Hc. }
  split; [exact HKl|]. rewrite HD. f_equal.
  rewrite <- (map_id P) at 2. apply map_ext_in. intros c Hc.
  rewrite Forall_forall in HP. apply isdigit_tolower, HP, Hc.
Qed.

Lemma nettool_check_formula serial d K serial' option :
  digits_of_length SERIAL_NUMBER_SIZE_ENIGMAC serial = true -> 0 <= d <= 9 ->
  enigma_c_encrypt (rev (serial ++ [chr (48 + d); "0"%char])) 12 = Ok K ->
  enigma_c_check_option_key option K serial' =
    Ok (str_eqb (skipn 2 serial ++ [chr (48 + d); "0"%char]) serial' &&
        (10 * (ord (nth 1 serial "0"%char) - 48) + (ord (nth 0 serial "0"%char) - 48) =? option)).
Proof.
  intros Hs Hd HK.
  apply digits_of_length_spec in Hs as (Hlen & Hdig).
  assert (HP : Forall (fun c => isdigit c = true) (rev (serial ++ [chr (48 + d); "0"%char]))).
  { apply Forall_rev, Forall_app. split; [exact Hdig|].
    repeat constructor. apply isdigit_chr. lia. }
  destruct (nettool_digits_roundtrip (rev (serial ++ [chr (48 + d); "0"%char])) K) as (HKl & HD); [|exact HP|exact HK|].
  { rewrite length_rev, length_app, Hlen. reflexivity. }
  do 10 (destruct serial as [|? serial]; [discriminate|]).
  destruct serial; [|discriminate]. clear Hlen.
  match type of Hdig with Forall _ [?a0; ?a1; _; _; _; _; _; _; _; _] =>
    rename a0 into s0; rename a1 into s1 end.
  pose proof (Forall_inv Hdig) as H0. pose proof (Forall_inv (Forall_inv_tail Hdig)) as H1.
  cbn beta in H0, H1.
  unfold enigma_c_check_option_key.
  destruct K as [|k K']; [discriminate|].
  assert (Hb : str_eqb (k :: K') BLADERULES = false).
  { destruct (str_eqb (k :: K') BLADERULES) eqn:E; [|reflexivity].
    apply str_eqb_spec in E. rewrite E in HKl. discriminate. }
  rewrite Hb, HD. cbn [rev app]. rewrite reversed_serial_12 by reflexivity.
  cbn [firstn rev app skipn nth].
  match goal with |- context [str_eqb ?r serial'] => destruct (str_eqb r serial') end;
    cbn [negb andb]; [|reflexivity].
  unfold substr. cbn [length Nat.leb skipn firstn].
  rewrite stoi_field.
  - rewrite digit_prefix_all by (repeat constructor; assumption).
    unfold digits_value. cbn [digits_value_acc]. rewrite Z.mul_0_r, Z.add_0_l. reflexivity.
  - repeat constructor; apply stoi_plain_valid; unfold valid_b;
      rewrite ?H0, ?H1; reflexivity.
  - cbn [length]. lia.
Qed.

(** X5. For the key generated from a 10-digit serial S and option digit d, [enigma_c_check_option_key option K S'] returns normally, with true exactly when S' is S minus its first two digits followed by d and '0' and option = 10 * S[1] + S[0]. *)
Theorem nettool_check_generated serial d K serial' option :
  digits_of_length SERIAL_NUMBER_SIZE_ENIGMAC serial = true -> 0 <= d <= 9 ->
  enigma_c_encrypt (assemble_c serial (chr (48 + d))) 12 = Ok K ->
  enigma_c_check_option_key option K serial' =
    Ok (str_eqb (skipn 2 serial ++ [chr (48 + d); "0"%char]) serial' &&
        (10 * (ord (nth 1 serial "0"%char) - 48) + (ord (nth 0 serial "0"%char) - 48) =? option)).
Proof. intros Hs Hd HK. exact (nettool_check_formula serial d K serial' option Hs Hd HK). Qed.

Lemma nettool_check_generated_witness :
  digits_of_length SERIAL_NUMBER_SIZE_ENIGMAC (L "0003333016") = true /\ 0 <= 4 <= 9 /\
  enigma_c_encrypt (assemble_c (L "0003333016") (chr (48 + 4))) 12 = Ok (L "5dabade112dd") /\
  enigma_c_check_option_key 0 (L "5dabade112dd") (L "0333301640") = Ok true.
Proof.
  assert (H1 : digits_of_length SERIAL_NUMBER_SIZE_ENIGMAC (L "0003333016") = true) by reflexivity.
  assert (H2 : 0 <= 4 <= 9) by lia.
  assert (H3 : enigma_c_encrypt (assemble_c (L "0003333016") (chr (48 + 4))) 12 = Ok (L "5dabade112dd"))
    by (vm_compute; reflexivity).
  split; [exact H1|]. split; [exact H2|]. split; [exact H3|].
  rewrite (nettool_check_generated _ _ _ (L "0333301640") 0 H1 H2 H3). vm_compute. reflexivity.
Defined.

(** X6. The key generated for serial S and option digit d passes [enigma_c_check_option_key] with the same serial S and option o if and only if S is "d0" five times and o = d. *)
Theorem nettool_check_own_serial serial d K option :
  digits_of_length SERIAL_NUMBER_SIZE_ENIGMAC serial = true -> 0 <= d <= 9 ->
  enigma_c_encrypt (assemble_c serial (chr (48 + d))) 12 = Ok K ->
  (enigma_c_check_option_key option K serial = Ok true <->
   serial = concat (repeat [chr (48 + d); "0"%char] 5) /\ option = d).
Proof.
  intros Hs Hd HK. rewrite (nettool_check_formula serial d K serial option Hs Hd HK).
  assert (Hdc : ord (chr (48 + d)) = 48 + d) by (apply ord_digit; lia).
  set (dc := chr (48 + d)) in *. clearbody dc.
  split.
  - intros E. injection E as E. apply andb_true_iff in E as (E1 & Eo).
    apply str_eqb_spec in E1. apply Z.eqb_eq in Eo.
    apply digits_of_length_spec in Hs as (Hlen & _).
    do 10 (destruct serial as [|? serial]; [discriminate|]).
    destruct serial; [|discriminate].
    cbn [skipn app] in E1. injection E1 as J1 J2 J3 J4 J5 J6 J7 J8 J9 J10.
    subst. split; [reflexivity|]. cbn [nth].     assert (H0 : ord "0"%char = 48) by reflexivity.
    rewrite Hdc, H0, Z.sub_diag. cbv beta iota. lia.
  - intros (-> & ->). cbn [repeat concat app skipn nth].
    replace (str_eqb _ _) with true by (symmetry; apply str_eqb_spec; reflexivity).
    rewrite Hdc. change (ord "0"%char) with 48. cbn [andb]. f_equal. apply Z.eqb_eq. lia.
Qed.

Lemma nettool_check_own_serial_witness :
  enigma_c_check_option_key 7 (L "52c320a341e0") (L "7070707070") = Ok true.
Proof.
  apply (nettool_check_own_serial (L "7070707070") 7 (L "52c320a341e0") 7).
  - reflexivity.
  - lia.
  - vm_compute. reflexivity.
  - split; reflexivity.
Defined.

(** X7. [check_nettool_option_key] with a non-empty key that is not 12 hex digits reads a serial line and, for a valid serial, writes "Option key must be 12 hex digits" to stderr and exits with status 1. *)
Theorem nettool_check_bad_key key serial rest w :
  key <> [] -> valid_nettool_key key = false ->
  cin w = serial :: rest -> digits_of_length SERIAL_NUMBER_SIZE_ENIGMAC serial = true ->
  check_nettool_option_key key w =
    (inr (Stopped Exit1),
     mkWorld rest (cout w ++ L "Enter Serial Number (10 digits): ")
             (cerr w ++ Ln "Option key must be 12 hex digits")).
Proof.
  intros Hk Hv Hc Hs. unfold check_nettool_option_key, read_code, prompt_loop.
  unfold io_bind at 1. cbv beta. rewrite Hc. cbn [prompt_rounds]. rewrite Hs. cbn [io_bind cin cout cerr].
  destruct key as [|k key']; [congruence|]. cbn [io_bind ret].
  rewrite Hv. reflexivity.
Qed.

Lemma nettool_check_bad_key_witness :
  check_nettool_option_key BLADERULES (mkWorld [L "0003333016"] [] []) =
    (inr (Stopped Exit1),
     mkWorld [] ([] ++ L "Enter Serial Number (10 digits): ")
             ([] ++ Ln "Option key must be 12 hex digits")).
Proof.
  apply (nettool_check_bad_key BLADERULES (L "0003333016") [] (mkWorld [L "0003333016"] [] [])).
  - discriminate.
  - reflexivity.
  - reflexivity.
  - reflexivity.
Defined.

Lemma option_digit_range line : 0 <= option_digit line <= 9.
Proof.
  unfold option_digit. destruct line as [|c l]; [lia|].
  destruct (isdigit c) eqn:Hc; [|lia].
  destruct (digit_facts c Hc) as (Hu & Ho & _). unfold isdigit, in_range in Hc.
  apply andb_true_iff in Hc as (H1 & H2). apply Z.leb_le in H1, H2. lia.
Qed.

Lemma hex_string_digit d : 0 <= d <= 9 -> to_hex_string d = [chr (48 + d)].
Proof.
  intros H. assert (E : d = 0 \/ d = 1 \/ d = 2 \/ d = 3 \/ d = 4 \/ d = 5 \/ d = 6 \/
                        d = 7 \/ d = 8 \/ d = 9) by lia.
  repeat destruct E as [->|E]; try reflexivity. subst. reflexivity.
Qed.

Lemma clamp_option_digit d : 0 <= d <= 9 -> clamp_option d = d.
Proof.
  intros H. unfold clamp_option. destruct (Z.ltb_spec d 0), (Z.ltb_spec 9 d); cbn [orb]; lia.
Qed.

(** X8. With a 12-hex-digit key, a valid serial line and an option line, [check_nettool_option_key] uses an option digit in 0..9 and prints "Option valid" or "Option invalid" as [enigma_c_check_option_key] decides, or stops with its failure. *)
Theorem nettool_check_run key serial line rest w :
  valid_nettool_key key = true -> digits_of_length SERIAL_NUMBER_SIZE_ENIGMAC serial = true ->
  cin w = serial :: line :: rest ->
  let opt := option_digit line in
  let pre := cout w ++ L "Enter Serial Number (10 digits): " ++
             L "Enter Option Number (1 digit): " ++ nl :: Ln "EnigmaC::checkOptionKey()..." ++
             L "serialNum: " ++ serial ++ [nl] ++ L "optionKey: " ++ key ++ [nl] ++
             L "optionNum: 0x" ++ [chr (48 + opt)] ++ [nl] in
  0 <= opt <= 9 /\
  check_nettool_option_key key w =
    match enigma_c_check_option_key opt key serial with
    | Ok b => (inl tt, mkWorld rest (pre ++ L "Option " ++ (if b then L "valid" else L "invalid") ++ [nl])
                               (cerr w))
    | Fail f => (inr (Stopped f), mkWorld rest pre (cerr w))
    end.
Proof.
  intros Hv Hs Hc opt pre. pose proof (option_digit_range line) as Hr.
  split; [exact Hr|].
  unfold check_nettool_option_key, read_code, prompt_loop.
  unfold io_bind at 1. cbv beta. rewrite Hc. cbn [prompt_rounds]. rewrite Hs. cbn [io_bind cin cout cerr].
  destruct key as [|k key']; [discriminate|]. cbn [io_bind ret].
  rewrite Hv. cbn [negb io_bind ret put_out getline cin cout cerr].
  fold opt. rewrite (clamp_option_digit opt Hr), (hex_string_digit opt Hr).
  unfold lift. cbn [cin cout cerr].
  destruct (enigma_c_check_option_key opt (k :: key') serial) as [b|f];
    cbn [io_bind cin cout cerr]; unfold put_out, pre; cbn [cin cout cerr];
    repeat (rewrite <- app_assoc || rewrite <- app_comm_cons || rewrite app_nil_l); reflexivity.
Qed.

Lemma nettool_check_run_witness :
  0 <= option_digit (L "0x") <= 9 /\
  check_nettool_option_key (L "5dabade112dd") (mkWorld [L "0333301640"; L "0x"] [] []) =
    (inl tt, mkWorld [] ([] ++ L "Enter Serial Number (10 digits): " ++
             L "Enter Option Number (1 digit): " ++ nl :: Ln "EnigmaC::checkOptionKey()..." ++
             L "serialNum: " ++ L "0333301640" ++ [nl] ++ L "optionKey: " ++ L "5dabade112dd" ++ [nl] ++
             L "optionNum: 0x" ++ [chr (48 + 0)] ++ [nl] ++ L "Option " ++ L "valid" ++ [nl]) []).
Proof.
  destruct (nettool_check_run (L "5dabade112dd") (L "0333301640") (L "0x") []
              (mkWorld [L "0333301640"; L "0x"] [] [])) as (H1 & H2);
    [reflexivity|reflexivity|reflexivity|].
  split; [exact H1|]. rewrite H2. vm_compute. reflexivity.
Defined.

Lemma xdigit_plain c : isxdigit c = true -> stoi_plain (tolower c) = true.
Proof.
  destruct c as [[] [] [] [] [] [] [] []]; intros H; vm_compute in H;
    (discriminate H || reflexivity).
Qed.

(** X9. For a 10-digit serial S, the encryption of reversed S followed by a letter a-f and a hex digit is a well-formed key, yet [enigma_c_check_option_key] on it and S throws [std::invalid_argument]. *)
Theorem nettool_check_letter_throws serial x y option :
  digits_of_length SERIAL_NUMBER_SIZE_ENIGMAC serial = true ->
  in_range 97 102 x = true -> isxdigit y = true ->
  exists K, enigma_c_encrypt (rev serial ++ [x; y]) 12 = Ok K /\
    valid_nettool_key K = true /\
    enigma_c_check_option_key option K serial = Fail InvalidArgument.
Proof.
  intros Hs Hx Hy. apply digits_of_length_spec in Hs as (Hlen & Hdig).
  unfold SERIAL_NUMBER_SIZE_ENIGMAC in Hlen.
  set (P := rev serial ++ [x; y]).
  assert (Hxx : isxdigit x = true /\ isdigit x = false /\ tolower x = x).
  { revert Hx. clear. destruct x as [[] [] [] [] [] [] [] []]; intros H;
      vm_compute in H; try discriminate H; vm_compute; auto. }
  destruct Hxx as (Hxx & Hxd & Hxl).
  assert (HP : Forall (fun c => isxdigit c = true) P).
  { unfold P. apply Forall_app. split.
    - apply Forall_rev. eapply Forall_impl; [|exact Hdig]. intros c Hc. apply isdigit_isxdigit, Hc.
    - repeat constructor; assumption. }
  assert (HPl : length P = 12%nat) by (unfold P; rewrite length_app, length_rev, Hlen; reflexivity).
  destruct (c_encrypt_decrypt_loop 12 0 0 P) as (K & HK & _ & _); [lia|lia| |].
  { rewrite skipn_O, firstn_all2 by lia. exact HP. }
  assert (HK' : enigma_c_encrypt P 12 = Ok K) by exact HK.
  destruct (nettool_hex_roundtrip P K HPl HP HK') as (HKl & HD).
  destruct (c_encrypt_loop_out 12 0 0 P K) as (_ & HKc); [lia|exact HK|].
  exists K. split; [exact HK'|]. split.
  - unfold valid_nettool_key. rewrite HKl. cbn [Nat.eqb]. apply forallb_forall.
    intros c Hc. rewrite Forall_forall in HKc. specialize (HKc c Hc).
    unfold isxdigit. unfold isdigit in HKc.
    apply orb_true_iff in HKc as [H|H]; rewrite H; [reflexivity|].
    rewrite orb_true_r. reflexivity.
  - unfold enigma_c_check_option_key.
    destruct K as [|k K']; [discriminate|].
    replace (str_eqb (k :: K') BLADERULES) with false.
    2:{ symmetry. destruct (str_eqb (k :: K') BLADERULES) eqn:E; [|reflexivity].
        apply str_eqb_spec in E. rewrite E in HKl. discriminate. }
    rewrite HD. unfold P. rewrite map_app. cbn [map]. rewrite Hxl.
    assert (Hser : map tolower (rev serial) = rev serial).
    { rewrite <- (map_id (rev serial)) at 2. apply map_ext_in. intros c Hc.
      apply in_rev in Hc. rewrite Forall_forall in Hdig. apply isdigit_tolower, Hdig, Hc. }
    rewrite Hser.
    rewrite reversed_serial_12 by (rewrite length_app, length_rev, Hlen; reflexivity).
    rewrite firstn_app, length_rev, Hlen, firstn_all2, Nat.sub_diag, firstn_O, app_nil_r
      by (rewrite length_rev; lia).
    rewrite rev_involutive.
    replace (str_eqb serial serial) with true by (symmetry; apply str_eqb_spec; reflexivity).
    cbn [negb]. unfold substr. rewrite length_app, length_rev, Hlen. cbn [Nat.leb].
    replace (skipn 10 (rev serial ++ [x; tolower y])) with [x; tolower y]
      by (rewrite skipn_app, length_rev, Hlen, skipn_all2 by (rewrite length_rev; lia); reflexivity).
    cbn [firstn length Nat.add]. rewrite stoi_field.
    + cbn [digit_prefix]. rewrite Hxd. reflexivity.
    + constructor; [apply stoi_plain_hex; rewrite Hx, orb_true_r; reflexivity|].
      constructor; [|constructor]. apply xdigit_plain, Hy.
    + cbn [length]. lia.
Qed.

Lemma nettool_check_letter_throws_witness :
  exists K, enigma_c_encrypt (rev (L "0003333016") ++ ["a"%char; "5"%char]) 12 = Ok K /\
    valid_nettool_key K = true /\
    enigma_c_check_option_key 4 K (L "0003333016") = Fail InvalidArgument.
Proof. apply nettool_check_letter_throws; reflexivity. Defined.

Lemma zero_pad_ok n p : pad_ok n p = true ->
  exists pad, zero_pad n (to_string p) = ret pad /\
              digits_of_length n pad = true /\ digits_value pad = p.
Proof.
  unfold pad_ok, zero_pad. intros H. apply andb_true_iff in H as (H & H3).
  apply andb_true_iff in H as (H1 & H2). rewrite H1.
  eexists. split; [reflexivity|]. split; [exact H2|]. apply Z.eqb_eq, H3.
Qed.

Lemma zero_pad_4 p : 0 <= p <= 9999 ->
  exists pad, zero_pad 4 (to_string p) = ret pad /\
              digits_of_length 4 pad = true /\ digits_value pad = p.
Proof.
  intros Hp. apply zero_pad_ok. revert p Hp.
  assert (H : forall k, 0 <= k < Z.of_nat (Z.to_nat 10000) -> pad_ok 4 k = true).
  { apply (forall_range _ (pad_ok 4) (Z.to_nat 10000)); [auto|vm_compute; reflexivity]. }
  intros p Hp. apply H. rewrite Z2Nat.id by lia. lia.
Qed.

Lemma zero_pad_3 p : 0 <= p <= 999 ->
  exists pad, zero_pad 3 (to_string p) = ret pad /\
              digits_of_length 3 pad = true /\ digits_value pad = p.
Proof.
  intros Hp. apply zero_pad_ok. revert p Hp.
  assert (H : forall k, 0 <= k < Z.of_nat (Z.to_nat 1000) -> pad_ok 3 k = true).
  { apply (forall_range _ (pad_ok 3) (Z.to_nat 1000)); [auto|vm_compute; reflexivity]. }
  intros p Hp. apply H. rewrite Z2Nat.id by lia. lia.
Qed.

Lemma dec_digits_length fuel : forall n acc, (length acc < length (dec_digits fuel n acc) \/ fuel = O)%nat.
Proof.
  induction fuel as [|f IH]; intros n acc; [right; reflexivity|left].
  cbn [dec_digits]. destruct (n <? 10); [simpl; lia|].
  destruct (IH (n / 10) (chr (48 + n mod 10) :: acc)) as [H | ->]; simpl in *; lia.
Qed.

Lemma dec_digits_long fuel : forall k n acc,
  10 ^ Z.of_nat k <= n -> (k < fuel)%nat ->
  (length acc + k < length (dec_digits fuel n acc))%nat.
Proof.
  induction fuel as [|f IH]; intros k n acc Hn Hk; [lia|].
  cbn [dec_digits]. destruct (Z.ltb_spec n 10).
  - destruct k as [|k]; [simpl; lia|].
    rewrite Nat2Z.inj_succ, Z.pow_succ_r in Hn by lia.
    pose proof (Z.pow_pos_nonneg 10 (Z.of_nat k)). lia.
  - destruct k as [|k].
    + destruct (dec_digits_length f (n / 10) (chr (48 + n mod 10) :: acc)) as [H1 | ->];
        cbn [length dec_digits] in *; lia.
    + rewrite Nat2Z.inj_succ, Z.pow_succ_r in Hn by lia.
      assert (Hd : 10 ^ Z.of_nat k <= n / 10) by (apply Z.div_le_lower_bound; lia).
      specialize (IH k (n / 10) (chr (48 + n mod 10) :: acc) Hd ltac:(lia)).
      cbn [length] in IH. lia.
Qed.

Lemma zero_pad_long (n : nat) p w : 10 ^ Z.of_nat n <= p -> (n < 20)%nat ->
  zero_pad n (to_string p) w = (inr LengthError, w).
Proof.
  intros Hp Hn. unfold zero_pad, to_string.
  pose proof (Z.pow_pos_nonneg 10 (Z.of_nat n)).
  destruct (Z.ltb_spec p 0); [lia|].
  pose proof (dec_digits_long 20 n p [] Hp Hn) as H1. cbn [length] in H1.
  destruct (Nat.leb_spec (length (dec_digits 20 p [])) n); [lia|]. reflexivity.
Qed.

Lemma enigma2_key_char_valid c : enigma2_key_char c = valid_b c.
Proof. destruct c as [[] [] [] [] [] [] [] []]; reflexivity. Qed.

Lemma valid_enigma2_key_spec s :
  valid_enigma2_key s = true <-> length s = KEY_LENGTH /\ Forall (fun c => valid_b c = true) s.
Proof.
  unfold valid_enigma2_key. rewrite andb_true_iff, Nat.eqb_eq, forallb_forall, Forall_forall.
  split; intros (H1 & H2); split; try exact H1; intros c Hc;
    [rewrite <- enigma2_key_char_valid | rewrite enigma2_key_char_valid]; auto.
Qed.

(** A Cipher-B plaintext of digits: its key is a valid console key and
    decodes to the plaintext with its checksum digits. *)
Lemma enigma2_digits_key pc serial oc :
  digits_of_length 4 pc = true -> digits_of_length SERIAL_NUMBER_SIZE_ENIGMA2 serial = true ->
  digits_of_length 3 oc = true ->
  exists K, enigma2_c_encrypt (assemble_2 pc serial oc) = Ok K /\
    valid_enigma2_key K = true /\
    enigma2_c_decrypt K = Ok (write_checksum (assemble_2 pc serial oc)).
Proof.
  intros Hp Hs Ho.
  apply digits_of_length_spec in Hp as (Hpl & Hpd), Hs as (Hsl & Hsd), Ho as (Hol & Hod).
  set (P := assemble_2 pc serial oc).
  assert (HvP : Forall (fun c => valid_b c = true) P).
  { unfold P, assemble_2. simpl. constructor; [reflexivity|]. constructor; [reflexivity|].
    apply Forall_app; split; [|apply Forall_app; split];
      (eapply Forall_impl; [|eassumption]); intros c Hc; unfold valid_b; rewrite Hc; reflexivity. }
  assert (HlP : length P = KEY_LENGTH).
  { unfold P, assemble_2. simpl. rewrite !length_app, Hpl, Hsl, Hol. reflexivity. }
  destruct (enigma2_encrypt_decrypt P HlP HvP) as (K & He & Hdk & Hf).
  exists K. split; [exact He|]. split; [|exact Hdk].
  apply valid_enigma2_key_spec. split.
  - apply Forall2_length in Hf. rewrite <- Hf.
    destruct (write_checksum_shape P (Forall_skipn_l _ 2 P HvP)) as (d0 & d1 & Hw & _).
    rewrite Hw. cbn [length]. rewrite length_skipn, HlP. reflexivity.
  - apply (Forall2_same_class_valid _ _ Hf).
    destruct (write_checksum_shape P (Forall_skipn_l _ 2 P HvP)) as (d0 & d1 & Hw & Hd0 & Hd1 & _).
    rewrite Hw. constructor; [|constructor; [|apply Forall_skipn_l, HvP]];
      unfold valid_b; rewrite Z.add_comm, isdigit_chr by lia; reflexivity.
Qed.

Lemma enigma2_generate_run serial option_number product_code w :
  digits_of_length SERIAL_NUMBER_SIZE_ENIGMA2 serial = true ->
  0 <= product_code <= 9999 -> 0 <= option_number <= 999 ->
  exists pc oc K,
    digits_of_length 4 pc = true /\ digits_value pc = product_code /\
    digits_of_length 3 oc = true /\ digits_value oc = option_number /\
    enigma2_c_encrypt (assemble_2 pc serial oc) = Ok K /\
    valid_enigma2_key K = true /\
    enigma2_c_decrypt K = Ok (write_checksum (assemble_2 pc serial oc)) /\
    calculate_enigma2_option_key serial option_number product_code true w =
      (inl tt, mkWorld (cin w)
                 (cout w ++ L "SerialNum= " ++ serial ++ [nl] ++
                  nl :: Ln "Encrypting with Enigma 2..." ++
                  L "Option Key:" ++ key_groups 0 K ++ [nl]) (cerr w)).
Proof.
  intros Hs Hp Ho.
  destruct (zero_pad_4 product_code Hp) as (pc & Hpc & Hpcd & Hpcv).
  destruct (zero_pad_3 option_number Ho) as (oc & Hoc & Hocd & Hocv).
  destruct (enigma2_digits_key pc serial oc Hpcd Hs Hocd) as (K & He & Hv & Hd).
  exists pc, oc, K. do 7 (split; [assumption|]).
  unfold calculate_enigma2_option_key.
  replace (0 <=? product_code) with true by (symmetry; apply Z.leb_le; lia).
  replace (0 <=? option_number) with true by (symmetry; apply Z.leb_le; lia).
  rewrite Hpc, Hoc. cbn [io_bind ret].
  destruct serial as [|s0 sr]; [discriminate|]. cbn [read_serial io_bind ret].
  rewrite Hs. cbn [negb io_bind ret put_out cin cout cerr].
  destruct pc as [|c0 pc0]; [discriminate|]. destruct oc as [|d0 oc0]; [discriminate|].
  cbn [io_bind ret put_out cin cout cerr].
  match goal with |- context [enigma2_c_encrypt ?x] =>
    replace (enigma2_c_encrypt x) with (Ok K : res (list ascii)) by (symmetry; exact He) end.
  cbn [lift io_bind]. unfold print_option_key, put_out. cbn [cin cout cerr].
  repeat (rewrite <- app_assoc || rewrite <- app_comm_cons || rewrite app_nil_l); reflexivity.
Qed.

(** X10. For a 7-digit serial, product code 0..9999 and option 0..999, [calculate_enigma2_option_key] zero-pads the codes to 4 and 3 digits, encrypts and prints the key; the key passes the format check and decrypts to the plaintext with its checksum. *)
Theorem enigma2_generate serial option_number product_code w :
  digits_of_length SERIAL_NUMBER_SIZE_ENIGMA2 serial = true ->
  0 <= product_code <= 9999 -> 0 <= option_number <= 999 ->
  exists pc oc K,
    digits_of_length 4 pc = true /\ digits_value pc = product_code /\
    digits_of_length 3 oc = true /\ digits_value oc = option_number /\
    enigma2_c_encrypt (assemble_2 pc serial oc) = Ok K /\
    valid_enigma2_key K = true /\
    enigma2_c_decrypt K = Ok (write_checksum (assemble_2 pc serial oc)) /\
    calculate_enigma2_option_key serial option_number product_code true w =
      (inl tt, mkWorld (cin w)
                 (cout w ++ L "SerialNum= " ++ serial ++ [nl] ++
                  nl :: Ln "Encrypting with Enigma 2..." ++
                  L "Option Key:" ++ key_groups 0 K ++ [nl]) (cerr w)).
Proof. exact (enigma2_generate_run serial option_number product_code w). Qed.

Lemma enigma2_generate_witness :
  exists pc oc K,
    digits_of_length 4 pc = true /\ digits_value pc = 6963 /\
    digits_of_length 3 oc = true /\ digits_value oc = 7 /\
    enigma2_c_encrypt (assemble_2 pc (L "1234567") oc) = Ok K /\
    valid_enigma2_key K = true /\
    enigma2_c_decrypt K = Ok (write_checksum (assemble_2 pc (L "1234567") oc)) /\
    calculate_enigma2_option_key (L "1234567") 7 6963 true (mkWorld [] [] []) =
      (inl tt, mkWorld []
                 ([] ++ L "SerialNum= " ++ L "1234567" ++ [nl] ++
                  nl :: Ln "Encrypting with Enigma 2..." ++
                  L "Option Key:" ++ key_groups 0 K ++ [nl]) []).
Proof. apply (enigma2_generate (L "1234567") 7 6963 (mkWorld [] [] [])); [reflexivity|lia|lia]. Defined.

(** X11. [check_enigma2_option_key] on a key generated from a 4-digit product code, 7-digit serial and 3-digit option code prints back the product code with its name (or "Unknown"), the serial and the option code. *)
Theorem enigma2_check_generated pc serial oc K w :
  digits_of_length 4 pc = true -> digits_of_length SERIAL_NUMBER_SIZE_ENIGMA2 serial = true ->
  digits_of_length 3 oc = true ->
  enigma2_c_encrypt (assemble_2 pc serial oc) = Ok K ->
  check_enigma2_option_key K w =
    (inl tt, mkWorld (cin w)
               (cout w ++ Ln "Decrypting with Enigma 2..." ++
                L "Product Code: " ++ pc ++ L " -> " ++
                (match find_product PRODUCT_TABLE pc with
                 | Some product => ProductInfo.name product ++ [nl]
                 | None => Ln "Unknown"
                 end) ++
                L "SerialNumber: " ++ serial ++ [nl] ++
                L "OptionNumber: " ++ oc ++ [nl]) (cerr w)).
Proof.
  intros Hp Hs Ho HK.
  destruct (enigma2_digits_key pc serial oc Hp Hs Ho) as (K' & He & Hv & Hd).
  rewrite HK in He. injection He as <-.
  assert (HP : Forall (fun c => valid_b c = true) (skipn 2 (assemble_2 pc serial oc))).
  { apply digits_of_length_spec in Hp as (_ & Hpd), Hs as (_ & Hsd), Ho as (_ & Hod).
    unfold assemble_2. cbn [skipn L list_ascii_of_string app].
    apply Forall_app; split; [|apply Forall_app; split];
      (eapply Forall_impl; [|eassumption]); intros c Hc; unfold valid_b; rewrite Hc; reflexivity. }
  destruct (write_checksum_shape _ HP) as (d0 & d1 & Hw & _).
  rewrite Hw in Hd.
  unfold check_enigma2_option_key.
  destruct K as [|k K']; [discriminate|]. cbn [io_bind ret]. rewrite Hv.
  cbn [negb io_bind ret put_out cin cout cerr lift]. rewrite Hd.
  cbn [io_bind ret put_out cin cout cerr lift].
  apply digits_of_length_spec in Hp as (Hpl & _), Hs as (Hsl & _), Ho as (Hol & _).
  unfold assemble_2. cbn [skipn L list_ascii_of_string app].
  do 4 (destruct pc as [|? pc]; [discriminate|]). destruct pc; [|discriminate].
  do 7 (destruct serial as [|? serial]; [discriminate|]). destruct serial; [|discriminate].
  do 3 (destruct oc as [|? oc]; [discriminate|]). destruct oc; [|discriminate].
  cbn [substr skipn firstn app length Nat.leb PRODUCT_LOCATION PRODUCT_CODE_SIZE SERIAL_LOCATION
       SERIAL_NUMBER_SIZE_ENIGMA2 OPTION_LOCATION OPTION_CODE_SIZE CHECK_SUM_SIZE Nat.add
       lift io_bind put_out cin cout cerr].
  unfold put_out. cbn [cin cout cerr].
  repeat (rewrite <- app_assoc || rewrite <- app_comm_cons || rewrite app_nil_l); reflexivity.
Qed.

Lemma enigma2_check_generated_witness :
  check_enigma2_option_key (L "9225940719507747") (mkWorld [] [] []) =
    (inl tt, mkWorld []
               ([] ++ Ln "Decrypting with Enigma 2..." ++
                L "Product Code: " ++ L "6963" ++ L " -> " ++
                (match find_product PRODUCT_TABLE (L "6963") with
                 | Some product => ProductInfo.name product ++ [nl]
                 | None => Ln "Unknown"
                 end) ++
                L "SerialNumber: " ++ L "1234567" ++ [nl] ++
                L "OptionNumber: " ++ L "007" ++ [nl]) []).
Proof.
  apply (enigma2_check_generated (L "6963") (L "1234567") (L "007") (L "9225940719507747")
           (mkWorld [] [] []));
    [reflexivity|reflexivity|reflexivity|vm_compute; reflexivity].
Defined.

(** X12. A product code above 9999 or an option number above 999 makes [calculate_enigma2_option_key] throw [std::length_error] from the zero padding, before any input or output. *)
Theorem enigma2_pad_overflow serial option_number product_code assume_escope w :
  9999 < product_code \/ 999 < option_number ->
  calculate_enigma2_option_key serial option_number product_code assume_escope w =
    (inr LengthError, w).
Proof.
  intros H. unfold calculate_enigma2_option_key, io_bind at 1.
  destruct (Z.ltb_spec 9999 product_code) as [Hp|Hp].
  - replace (0 <=? product_code) with true by (symmetry; apply Z.leb_le; lia).
    rewrite (zero_pad_long 4 product_code); [reflexivity| |lia].
    change (10 ^ Z.of_nat 4) with 10000. lia.
  - destruct H as [H|H]; [lia|].
    assert (Hpc : exists pc, (if 0 <=? product_code then zero_pad 4 (to_string product_code)
                              else ret []) = ret pc).
    { destruct (Z.leb_spec 0 product_code); [|exists []; reflexivity].
      destruct (zero_pad_4 product_code) as (pc & -> & _); [lia|]. exists pc. reflexivity. }
    destruct Hpc as (pc & ->). cbv beta iota delta [ret]. unfold io_bind.
    replace (0 <=? option_number) with true by (symmetry; apply Z.leb_le; lia).
    rewrite (zero_pad_long 3 option_number); [reflexivity| |lia].
    change (10 ^ Z.of_nat 3) with 1000. lia.
Qed.

Lemma enigma2_pad_overflow_witness :
  (9999 < 10000 \/ 999 < 7) /\
  calculate_enigma2_option_key (L "1234567") 7 10000 true (mkWorld [] [] []) =
    (inr LengthError, mkWorld [] [] []).
Proof.
  split; [left; lia|].
  apply enigma2_pad_overflow. left. lia.
Defined.

(** X13. A non-empty key that is not 16 valid characters makes [check_enigma2_option_key] write "Option key must be 16 alphanumeric characters" to stderr and exit with status 1. *)
Theorem enigma2_check_bad_key key w :
  key <> [] -> ~ (length key = KEY_LENGTH /\ Forall (fun c => valid_b c = true) key) ->
  check_enigma2_option_key key w =
    (inr (Stopped Exit1),
     mkWorld (cin w) (cout w) (cerr w ++ Ln "Option key must be 16 alphanumeric characters")).
Proof.
  intros Hk Hv. unfold check_enigma2_option_key.
  destruct (valid_enigma2_key key) eqn:E.
  - apply valid_enigma2_key_spec in E. contradiction.
  - destruct key as [|k key']; [congruence|]. cbn [io_bind ret]. rewrite E. reflexivity.
Qed.

Lemma enigma2_check_bad_key_witness :
  check_enigma2_option_key (L "9225940719507747a") (mkWorld [] [] []) =
    (inr (Stopped Exit1),
     mkWorld [] [] ([] ++ Ln "Option key must be 16 alphanumeric characters")).
Proof.
  apply (enigma2_check_bad_key (L "9225940719507747a") (mkWorld [] [] [])).
  - discriminate.
  - intros (H & _). discriminate H.
Defined.

(** X14. A well-formed key whose decryption fails the checksum makes [check_enigma2_option_key] print "Decrypting with Enigma 2...", write "Decryption failed: invalid checksum" to stderr and exit with status 1. *)
Theorem enigma2_check_bad_checksum key w :
  length key = KEY_LENGTH -> Forall (fun c => valid_b c = true) key ->
  enigma2_c_decrypt key = Ok [] ->
  check_enigma2_option_key key w =
    (inr (Stopped Exit1),
     mkWorld (cin w) (cout w ++ Ln "Decrypting with Enigma 2...")
             (cerr w ++ Ln "Decryption failed: invalid checksum")).
Proof.
  intros Hl Hv Hd. assert (E : valid_enigma2_key key = true) by (apply valid_enigma2_key_spec; auto).
  unfold check_enigma2_option_key.
  destruct key as [|k key']; [discriminate|]. cbn [io_bind ret]. rewrite E.
  cbn [negb io_bind ret put_out lift cin cout cerr]. rewrite Hd. reflexivity.
Qed.

Lemma enigma2_check_bad_checksum_witness :
  check_enigma2_option_key (L "9225940719507748") (mkWorld [] [] []) =
    (inr (Stopped Exit1),
     mkWorld [] ([] ++ Ln "Decrypting with Enigma 2...")
             ([] ++ Ln "Decryption failed: invalid checksum")).
Proof.
  apply (enigma2_check_bad_checksum (L "9225940719507748") (mkWorld [] [] [])).
  - reflexivity.
  - repeat constructor.
  - vm_compute. reflexivity.
Defined.

Lemma io_bind_inl {A B : Type} (m : io A) (k : A -> io B) w x w' :
  io_bind m k w = (inl x, w') -> exists a w1, m w = (inl a, w1) /\ k a w1 = (inl x, w').
Proof.
  unfold io_bind. destruct (m w) as [[a|s] w1]; intros H; [|discriminate].
  exists a, w1. auto.
Qed.

Lemma get_menu_choice_range prompt min_val max_val w c w' :
  get_menu_choice prompt min_val max_val w = (inl c, w') -> min_val <= c <= max_val.
Proof.
  intros H. destruct (prompt_loop_done _ _ _ _ _ H) as (pre & l & Hl & _).
  destruct (stoi l) as [v|f]; [|discriminate].
  destruct (Z.leb_spec min_val v), (Z.leb_spec v max_val); cbn [andb] in Hl; try discriminate.
  injection Hl as <-. lia.
Qed.

Lemma read_code_digits n prompt msg w s w' :
  read_code n prompt msg w = (inl s, w') -> digits_of_length n s = true.
Proof.
  intros H. destruct (prompt_loop_done _ _ _ _ _ H) as (pre & l & Hl & _).
  destruct (digits_of_length n l) eqn:E; [|discriminate]. injection Hl as <-. exact E.
Qed.

Ltac bind_step H :=
  let a := fresh "a" in let w1 := fresh "w" in let H1 := fresh "H" in
  apply io_bind_inl in H as (a & w1 & H1 & H); cbv beta in H.

Lemma vec_at_in {A : Type} (t : list A) i x : vec_at t i = Ok x -> In x t.
Proof.
  unfold vec_at. destruct (0 <=? i); [|discriminate].
  destruct (nth_error t (Z.to_nat i)) eqn:E; [|discriminate]. intros H. injection H as ->.
  eapply nth_error_In. exact E.
Qed.

Lemma find_options_in t code po : find_options t code = Some po -> In po t.
Proof.
  induction t as [|x t IH]; cbn [find_options]; [discriminate|].
  destruct (str_eqb (ProductOptions.product_code x) code).
  - intros H. injection H as ->. left. reflexivity.
  - intros H. right. apply IH, H.
Qed.

Lemma lift_inl {A : Type} (r : res A) w a w' : lift r w = (inl a, w') -> r = Ok a.
Proof. unfold lift. destruct r; intros H; inversion H; reflexivity. Qed.

Lemma ret_inl {A : Type} (a : A) w x w' : ret a w = (inl x, w') -> a = x.
Proof. intros H. inversion H. reflexivity. Qed.

Lemma product_table_codes p : In p PRODUCT_TABLE -> digits_of_length 4 (ProductInfo.code p) = true.
Proof.
  intros Hp.
  assert (H : forallb (fun p => digits_of_length 4 (ProductInfo.code p)) PRODUCT_TABLE = true)
    by (vm_compute; reflexivity).
  rewrite forallb_forall in H. apply H, Hp.
Qed.

Lemma product_option_codes po o :
  In po PRODUCT_OPTIONS -> In o (ProductOptions.options po) ->
  digits_of_length 3 (OptionInfo.code o) = true.
Proof.
  intros Hpo Ho.
  assert (H : forallb (fun po => forallb (fun o => digits_of_length 3 (OptionInfo.code o))
                                         (ProductOptions.options po)) PRODUCT_OPTIONS = true)
    by (vm_compute; reflexivity).
  rewrite forallb_forall in H. specialize (H po Hpo). rewrite forallb_forall in H. apply H, Ho.
Qed.

(** X15. A selection returned by [product_code_menu] is a 4-digit product code and a 3-digit option code. *)
Theorem product_menu_codes w pc oc w' :
  product_code_menu w = (inl (Some (pc, oc)), w') ->
  digits_of_length 4 pc = true /\ digits_of_length 3 oc = true.
Proof.
  intros H. unfold product_code_menu in H.
  do 4 bind_step H.
  destruct (Z.eqb_spec a2 0) as [->|Hn0]; [apply ret_inl in H; discriminate|].
  destruct (Z.eqb_spec a2 8) as [->|Hn8].
  - bind_step H. bind_step H. apply ret_inl in H. injection H as -> ->.
    split; eapply read_code_digits; eassumption.
  - bind_step H. match goal with Hv : lift (vec_at _ _) _ = _ |- _ =>
      apply lift_inl, vec_at_in, product_table_codes in Hv end.
    match type of H with context [find_options PRODUCT_OPTIONS ?c] =>
      destruct (find_options PRODUCT_OPTIONS c) as [po|] eqn:Efo end.
    2:{ bind_step H. apply ret_inl in H. discriminate. }
    destruct (ProductOptions.options po) as [|t l] eqn:Eo.
    { bind_step H. apply ret_inl in H. discriminate. }
    do 4 bind_step H.
    match type of H with context [?k =? 0] =>
      destruct (Z.eqb_spec k 0) as [->|Hk0]; [apply ret_inl in H; discriminate|];
      destruct (Z.eqb_spec k 8) as [->|Hk8] end.
    + bind_step H. apply ret_inl in H. injection H as Hpc Hoc. subst pc oc.
      split; [assumption|]. eapply read_code_digits; eassumption.
    + bind_step H. apply ret_inl in H. injection H as Hpc Hoc. subst pc oc.
      split; [assumption|].
      match goal with Hv : lift (vec_at _ _) _ = _ |- _ => apply lift_inl, vec_at_in in Hv end.
      apply find_options_in in Efo. rewrite <- Eo in *.
      eapply product_option_codes; eassumption.
Qed.

Lemma product_menu_codes_witness :
  digits_of_length 4 (L "6963") = true /\ digits_of_length 3 (L "000") = true.
Proof.
  apply (product_menu_codes (mkWorld [L "3"; L "1"] [] []) (L "6963") (L "000")
           (snd (product_code_menu (mkWorld [L "3"; L "1"] [] [])))).
  vm_compute. reflexivity.
Defined.

Lemma get_menu_choice_first prompt min_val max_val w l rest c :
  cin w = l :: rest -> stoi l = Ok c -> min_val <= c <= max_val ->
  get_menu_choice prompt min_val max_val w = (inl c, mkWorld rest (cout w ++ prompt) (cerr w)).
Proof.
  intros Hc Hs Hr. unfold get_menu_choice, prompt_loop. rewrite Hc. cbn [prompt_rounds].
  rewrite Hs. destruct (Z.leb_spec min_val c), (Z.leb_spec c max_val); try lia. reflexivity.
Qed.

Lemma vec_at_pos {A : Type} (t : list A) i : 0 <= i ->
  vec_at t i = match nth_error t (Z.to_nat i) with Some x => Ok x | None => Fail OutOfRange end.
Proof. intros H. unfold vec_at. destruct (Z.leb_spec 0 i); [reflexivity|lia]. Qed.

Lemma product_table_options p : In p PRODUCT_TABLE ->
  exists po, find_options PRODUCT_OPTIONS (ProductInfo.code p) = Some po /\
             ProductOptions.options po <> [].
Proof.
  intros Hp. cbn [PRODUCT_TABLE In] in Hp.
  repeat (destruct Hp as [<-|Hp]; [eexists; split; [reflexivity|discriminate]|]).
  destruct Hp.
Qed.

(** X16. With input lines choosing product c and option k (1..7), [product_code_menu] returns the c-th product's code and its k-th option's code, or throws [std::out_of_range] when that product has fewer than k options; it consumes exactly the two lines. *)
Theorem product_menu_choice w lc lk rest c k :
  cin w = lc :: lk :: rest -> stoi lc = Ok c -> 1 <= c <= 7 -> stoi lk = Ok k -> 1 <= k <= 7 ->
  exists product po,
    nth_error PRODUCT_TABLE (Z.to_nat (c - 1)) = Some product /\
    find_options PRODUCT_OPTIONS (ProductInfo.code product) = Some po /\
    fst (product_code_menu w) =
      match nth_error (ProductOptions.options po) (Z.to_nat (k - 1)) with
      | Some o => inl (Some (ProductInfo.code product, OptionInfo.code o))
      | None => inr (Stopped OutOfRange)
      end /\
    cin (snd (product_code_menu w)) = rest.
Proof.
  intros Hc Hlc Hcr Hlk Hkr.
  destruct (nth_error PRODUCT_TABLE (Z.to_nat (c - 1))) as [product|] eqn:Ep.
  2:{ apply nth_error_None in Ep. cbn in Ep. lia. }
  destruct (product_table_options product) as (po & Efo & Hne); [eapply nth_error_In; exact Ep|].
  exists product, po. split; [reflexivity|]. split; [exact Efo|].
  set (R := product_code_menu w). assert (ER : R = product_code_menu w) by reflexivity.
  clearbody R. unfold product_code_menu in ER.
  unfold io_bind at 1 2 3 4 in ER. cbv beta in ER. unfold put_out at 1 2 3 in ER.
  cbn [cin cout cerr] in ER.
  rewrite (get_menu_choice_first _ 0 8 _ lc (lk :: rest) c) in ER by (cbn; auto; lia).
  replace (c =? 0) with false in ER by (symmetry; apply Z.eqb_neq; lia).
  replace (c =? 8) with false in ER by (symmetry; apply Z.eqb_neq; lia).
  rewrite vec_at_pos, Ep in ER by lia. cbn [lift io_bind] in ER. rewrite Efo in ER.
  destruct (ProductOptions.options po) as [|o0 os] eqn:Eo; [congruence|].
  unfold io_bind at 1 2 3 4 in ER. cbv beta in ER. unfold put_out at 1 2 3 in ER.
  cbn [cin cout cerr] in ER.
  rewrite (get_menu_choice_first _ 0 8 _ lk rest k) in ER by (cbn; auto; lia).
  replace (k =? 0) with false in ER by (symmetry; apply Z.eqb_neq; lia).
  replace (k =? 8) with false in ER by (symmetry; apply Z.eqb_neq; lia).
  rewrite vec_at_pos in ER by lia. cbn [lift io_bind] in ER. rewrite ER.
  destruct (nth_error (o0 :: os) (Z.to_nat (k - 1))); split; reflexivity.
Qed.

Lemma product_menu_choice_witness :
  exists product po,
    nth_error PRODUCT_TABLE (Z.to_nat (6 - 1)) = Some product /\
    find_options PRODUCT_OPTIONS (ProductInfo.code product) = Some po /\
    fst (product_code_menu (mkWorld [L "6"; L "3"] [] [])) =
      match nth_error (ProductOptions.options po) (Z.to_nat (3 - 1)) with
      | Some o => inl (Some (ProductInfo.code product, OptionInfo.code o))
      | None => inr (Stopped OutOfRange)
      end /\
    cin (snd (product_code_menu (mkWorld [L "6"; L "3"] [] []))) = [].
Proof.
  apply (product_menu_choice (mkWorld [L "6"; L "3"] [] []) (L "6") (L "3") [] 6 3);
    [reflexivity|vm_compute; reflexivity|lia|vm_compute; reflexivity|lia].
Defined.

Lemma arg_is_eq a s : arg_is a s = true -> a = L s.
Proof. unfold arg_is. apply str_eqb_spec. Qed.

Ltac not_flag a s H :=
  let E := fresh in
  destruct (arg_is a s) eqn:E; [apply arg_is_eq in E; subst a; vm_compute in H; discriminate H|].

Lemma mode_of_not_utility a m :
  mode_of a = Some m ->
  (arg_is a "?" || arg_is a "-?" || arg_is a "-h" || arg_is a "--help") = false /\
  (arg_is a "-V" || arg_is a "--version") = false /\
  arg_is a "--list-products" = false /\ arg_is a "--list-options" = false.
Proof.
  intros H.
  not_flag a "?"%string H. not_flag a "-?"%string H. not_flag a "-h"%string H.
  not_flag a "--help"%string H. not_flag a "-V"%string H. not_flag a "--version"%string H.
  not_flag a "--list-products"%string H. not_flag a "--list-options"%string H.
  repeat split.
Qed.

(** X17. With a mode in argv[1] and an argv[3] that [std::stoi] rejects, [main] ends with that exception before any input or output. *)
Theorem main_bad_number_arg argv w selection product_code assume_escope f :
  (3 < length argv)%nat -> mode_of (nth 1 argv []) = Some (selection, product_code, assume_escope) ->
  stoi (nth 3 argv []) = Fail f ->
  main argv w = (inr (Stopped f), w).
Proof.
  intros Hl Hm Hs. destruct (mode_of_not_utility _ _ Hm) as (H1 & H2 & H3 & H4).
  unfold main. destruct (Nat.leb_spec (length argv) 1); [lia|].
  rewrite H1, H2, H3, H4, Hm. cbv zeta.
  destruct (Nat.ltb_spec 3 (length argv)); [|lia].
  unfold io_bind at 1. unfold lift. rewrite Hs. reflexivity.
Qed.

Lemma main_bad_number_arg_witness :
  main [L "enigma"; L "-n"; L "0003333016"; L "x"] (mkWorld [] [] []) =
    (inr (Stopped InvalidArgument), mkWorld [] [] []).
Proof.
  apply (main_bad_number_arg _ _ 1 (-1) false); [cbn; lia|reflexivity|vm_compute; reflexivity].
Defined.

Lemma stoi_ok_not_flag a n s : stoi a = Ok n -> stoi (L s) = Fail InvalidArgument ->
  arg_is a s = false.
Proof.
  intros H Hs. destruct (arg_is a s) eqn:E; [|reflexivity].
  apply arg_is_eq in E. subst a. congruence.
Qed.

Lemma mode_of_number a n : stoi a = Ok n -> mode_of a = Some (n, -1, false).
Proof.
  intros H. unfold mode_of.
  rewrite !(stoi_ok_not_flag a n) by (exact H || (vm_compute; reflexivity)).
  rewrite H. reflexivity.
Qed.

(** X18. A first argument parsing to 1, 2 or 4 makes [main] behave as -n, -x or -d with the same other arguments. *)
Theorem main_numeric_mode prog a rest w n flag :
  stoi a = Ok n -> In (n, flag) [(1, "-n"); (2, "-x"); (4, "-d")]%string ->
  main (prog :: a :: rest) w = main (prog :: L flag :: rest) w.
Proof.
  intros Ha Hin. pose proof (mode_of_number a n Ha) as Hm.
  assert (Hf : mode_of (L flag) = Some (n, -1, false)).
  { destruct Hin as [E|[E|[E|[]]]]; injection E as <- <-; reflexivity. }
  destruct (mode_of_not_utility _ _ Hm) as (H1 & H2 & H3 & H4).
  destruct (mode_of_not_utility _ _ Hf) as (G1 & G2 & G3 & G4).
  unfold main. cbn [length nth Nat.leb].
  rewrite H1, H2, H3, H4, Hm, G1, G2, G3, G4, Hf. reflexivity.
Qed.

Lemma main_numeric_mode_witness :
  main [L "enigma"; L "1"; L "0003333016"; L "4"] (mkWorld [] [] []) =
  main [L "enigma"; L "-n"; L "0003333016"; L "4"] (mkWorld [] [] []).
Proof.
  apply (main_numeric_mode _ _ _ _ 1); [vm_compute; reflexivity|left; reflexivity].
Defined.

(** X19. A single argument parsing to a number outside 1..4 makes [main] behave as without arguments. *)
Theorem main_numeric_menu prog a w n :
  stoi a = Ok n -> n < 1 \/ 4 < n -> main [prog; a] w = main [prog] w.
Proof.
  intros Ha Hn. pose proof (mode_of_number a n Ha) as Hm.
  destruct (mode_of_not_utility _ _ Hm) as (H1 & H2 & H3 & H4).
  unfold main. cbn [length nth Nat.leb].
  rewrite H1, H2, H3, H4, Hm. cbv zeta. cbn [Nat.ltb Nat.leb andb].
  unfold io_bind at 1 2, ret. unfold run_selection.
  replace ((n <? 1) || (4 <? n)) with true by (destruct Hn; zbool; lia).
  reflexivity.
Qed.

Lemma main_numeric_menu_witness :
  main [L "enigma"; L "7"] (mkWorld [L "0"] [] []) = main [L "enigma"] (mkWorld [L "0"] [] []).
Proof. apply (main_numeric_menu _ _ _ 7); [vm_compute; reflexivity|right; lia]. Defined.

Lemma mode_of_escope a selection pc :
  mode_of a = Some (selection, pc, true) -> selection = 3 /\ (pc = 6963 \/ pc = 7001).
Proof.
  unfold mode_of.
  destruct (arg_is a "-n"), (arg_is a "-x"), (arg_is a "-e"), (arg_is a "-l"), (arg_is a "-d");
    intros H; try (injection H as <- <-; auto; fail); try discriminate.
  all: destruct (stoi a); discriminate.
Qed.

(** X20. [main] with -e or -l, a 7-digit serial and an option in 0..999 generates for product 6963 or 7001 a valid key decrypting to the padded fields, prints it and exits with status 0. *)
Theorem main_generate prog flag serial ostr w product_code o :
  mode_of flag = Some (3, product_code, true) ->
  digits_of_length SERIAL_NUMBER_SIZE_ENIGMA2 serial = true ->
  stoi ostr = Ok o -> 0 <= o <= 999 ->
  (product_code = 6963 \/ product_code = 7001) /\
  exists pc oc K,
    digits_of_length 4 pc = true /\ digits_value pc = product_code /\
    digits_of_length 3 oc = true /\ digits_value oc = o /\
    valid_enigma2_key K = true /\
    enigma2_c_decrypt K = Ok (write_checksum (assemble_2 pc serial oc)) /\
    main [prog; flag; serial; ostr] w =
      (inl 0, mkWorld (cin w)
                (cout w ++ L "SerialNum= " ++ serial ++ [nl] ++
                 nl :: Ln "Encrypting with Enigma 2..." ++
                 L "Option Key:" ++ key_groups 0 K ++ [nl]) (cerr w)).
Proof.
  intros Hm Hs Ho Hor.
  destruct (mode_of_escope _ _ _ Hm) as (_ & Hpc). split; [exact Hpc|].
  destruct (enigma2_generate_run serial o product_code w Hs) as
    (pc & oc & K & Hp1 & Hp2 & Ho1 & Ho2 & _ & Hv & Hd & Hrun); [lia|lia|].
  exists pc, oc, K. do 6 (split; [assumption|]).
  destruct (mode_of_not_utility _ _ Hm) as (H1 & H2 & H3 & H4).
  unfold main. cbn [length nth Nat.leb].
  rewrite H1, H2, H3, H4, Hm. cbv zeta. cbn [Nat.ltb Nat.leb andb negb Z.eqb orb].
  unfold io_bind at 1 2. unfold lift. rewrite Ho. cbv beta iota. unfold ret at 1.
  unfold run_selection. cbn [Z.ltb Z.eqb orb Z.compare].
  change ((3 <? 1) || (4 <? 3)) with false. cbn [Pos.eqb orb negb].
  unfold io_bind. rewrite Hrun. reflexivity.
Qed.

Lemma main_generate_witness :
  (7001 = 6963 \/ 7001 = 7001) /\
  exists pc oc K,
    digits_of_length 4 pc = true /\ digits_value pc = 7001 /\
    digits_of_length 3 oc = true /\ digits_value oc = 2 /\
    valid_enigma2_key K = true /\
    enigma2_c_decrypt K = Ok (write_checksum (assemble_2 pc (L "1234567") oc)) /\
    main [L "enigma"; L "-l"; L "1234567"; L "2"] (mkWorld [] [] []) =
      (inl 0, mkWorld []
                ([] ++ L "SerialNum= " ++ L "1234567" ++ [nl] ++
                 nl :: Ln "Encrypting with Enigma 2..." ++
                 L "Option Key:" ++ key_groups 0 K ++ [nl]) []).
Proof.
  apply main_generate; [reflexivity|reflexivity|vm_compute; reflexivity|lia].
Defined.

(** X21. A first argument that is no known flag and no number makes [main] write "Unknown option: " and the argument to stderr and exit with status 1, reading nothing. *)
Theorem main_unknown_option prog arg1 rest w f :
  stoi arg1 = Fail f ->
  ~ In arg1 (map L ["?"; "-?"; "-h"; "--help"; "-V"; "--version"; "--list-products";
                    "--list-options"; "-n"; "-x"; "-e"; "-l"; "-d"]%string) ->
  fst (main (prog :: arg1 :: rest) w) = inl 1 /\
  cin (snd (main (prog :: arg1 :: rest) w)) = cin w /\
  cerr (snd (main (prog :: arg1 :: rest) w)) = cerr w ++ L "Unknown option: " ++ arg1 ++ [nl].
Proof.
  intros Hs Hn.
  assert (Hf : forall s, In (L s) (map L ["?"; "-?"; "-h"; "--help"; "-V"; "--version";
                    "--list-products"; "--list-options"; "-n"; "-x"; "-e"; "-l"; "-d"]%string) ->
               arg_is arg1 s = false).
  { intros s Hin. destruct (arg_is arg1 s) eqn:E; [|reflexivity].
    apply arg_is_eq in E. subst arg1. contradiction. }
  assert (Hm : mode_of arg1 = None).
  { unfold mode_of. rewrite !Hf by (cbn; tauto). rewrite Hs. reflexivity. }
  unfold main. cbn [length nth Nat.leb].
  rewrite !Hf by (cbn; tauto). cbn [orb]. rewrite Hm.
  unfold io_bind, put_err, print_help, put_out, ret. cbn [cin cout cerr fst snd].
  split; [reflexivity|]. split; [reflexivity|]. rewrite <- ?app_assoc. reflexivity.
Qed.

Lemma main_unknown_option_witness :
  fst (main [L "enigma"; L "-q"] (mkWorld [] [] [])) = inl 1 /\
  cin (snd (main [L "enigma"; L "-q"] (mkWorld [] [] []))) = [] /\
  cerr (snd (main [L "enigma"; L "-q"] (mkWorld [] [] []))) = [] ++ L "Unknown option: " ++ L "-q" ++ [nl].
Proof.
  apply (main_unknown_option (L "enigma") (L "-q") [] (mkWorld [] [] []) InvalidArgument); [vm_compute; reflexivity|].
  cbn. intros H. repeat (destruct H as [H|H]; [discriminate H|]). exact H.
Defined.

Lemma consumes_ret {A : Type} (a : A) : consumes (ret a).
Proof. intros w r w' H. injection H as _ <-. exists []. reflexivity. Qed.

Lemma consumes_halt {A : Type} s : consumes (halt (A := A) s).
Proof. intros w r w' H. injection H as _ <-. exists []. reflexivity. Qed.

Lemma consumes_put_out s : consumes (put_out s).
Proof. intros w r w' H. injection H as _ <-. exists []. reflexivity. Qed.

Lemma consumes_put_err s : consumes (put_err s).
Proof. intros w r w' H. injection H as _ <-. exists []. reflexivity. Qed.

Lemma consumes_lift {A : Type} (x : res A) : consumes (lift x).
Proof. intros w r w' H. unfold lift in H. destruct x; injection H as _ <-; exists []; reflexivity. Qed.

Lemma consumes_getline : consumes getline.
Proof.
  intros [ci co ce] r w' H. unfold getline in H. cbn [cin] in H.
  destruct ci as [|l rest]; injection H as _ <-; [exists [] | exists [l]]; reflexivity.
Qed.

Lemma prompt_rounds_suffix {A : Type} p (step : list ascii -> A + list ascii) lines :
  forall out r rest out', prompt_rounds p step lines out = (r, rest, out') ->
  exists pre, lines = pre ++ rest.
Proof.
  induction lines as [|x lines IH]; intros out r rest out' H; cbn [prompt_rounds] in H.
  - exists []. destruct (step []); injection H as _ <- _; reflexivity.
  - destruct (step x) as [a|m].
    + injection H as _ <- _. exists [x]. reflexivity.
    + destruct (IH _ _ _ _ H) as (pre & ->). exists (x :: pre). reflexivity.
Qed.

Lemma consumes_prompt_loop {A : Type} p (step : list ascii -> A + list ascii) :
  consumes (prompt_loop p step).
Proof.
  intros w r w' H. unfold prompt_loop in H.
  destruct (prompt_rounds p step (cin w) (cout w)) as [[r0 rest] out] eqn:E.
  injection H as _ <-. cbn [cin]. exact (prompt_rounds_suffix _ _ _ _ _ _ _ E).
Qed.

Lemma consumes_bind {A B : Type} (m : io A) (k : A -> io B) :
  consumes m -> (forall a, consumes (k a)) -> consumes (io_bind m k).
Proof.
  intros Hm Hk w r w' H. unfold io_bind in H.
  destruct (m w) as [[a|s] w1] eqn:E.
  - destruct (Hm _ _ _ E) as (pre1 & H1). destruct (Hk a _ _ _ H) as (pre2 & H2).
    exists (pre1 ++ pre2). rewrite H1, H2, app_assoc. reflexivity.
  - injection H as _ <-. exact (Hm _ _ _ E).
Qed.

Create HintDb consumes.
#[local] Hint Resolve consumes_ret consumes_halt consumes_put_out consumes_put_err consumes_lift
  consumes_getline consumes_prompt_loop : consumes.

Ltac consumes_tac :=
  repeat first
    [ progress (eauto with consumes)
    | apply consumes_bind; [|intro]
    | match goal with
      | |- consumes (if ?b then _ else _) => destruct b
      | |- consumes (match ?x with _ => _ end) => destruct x
      end
    | progress unfold read_code, get_menu_choice, read_serial, zero_pad, print_option_key, exit1 ].

Lemma consumes_product_code_menu : consumes product_code_menu.
Proof. unfold product_code_menu. consumes_tac. Qed.

Lemma consumes_calculate_nettool_option_key s o : consumes (calculate_nettool_option_key s o).
Proof. unfold calculate_nettool_option_key. consumes_tac. Qed.

Lemma consumes_check_nettool_option_key k : consumes (check_nettool_option_key k).
Proof. unfold check_nettool_option_key. consumes_tac. Qed.

Lemma consumes_calculate_enigma2_option_key s o p a :
  consumes (calculate_enigma2_option_key s o p a).
Proof. unfold calculate_enigma2_option_key. consumes_tac. Qed.

Lemma consumes_check_enigma2_option_key k : consumes (check_enigma2_option_key k).
Proof. unfold check_enigma2_option_key. consumes_tac. Qed.

#[local] Hint Resolve consumes_product_code_menu consumes_calculate_nettool_option_key
  consumes_check_nettool_option_key consumes_calculate_enigma2_option_key
  consumes_check_enigma2_option_key : consumes.

Lemma get_menu_choice_line prompt min_val max_val w c w' :
  get_menu_choice prompt min_val max_val w = (inl c, w') ->
  exists pre l, cin w = pre ++ l :: cin w'.
Proof.
  intros H. destruct (prompt_loop_done _ _ _ _ _ H) as (pre & l & Hl & _ & [Hc | (_ & -> & _)]).
  - exists pre, l. exact Hc.
  - discriminate Hl.
Qed.

Lemma main_menu_progress w w' :
  main_menu w = (inl true, w') -> (length (cin w') < length (cin w))%nat.
Proof.
  intros H. unfold main_menu in H.
  apply io_bind_inl in H as (a1 & w1 & H1 & H). apply io_bind_inl in H as (a2 & w2 & H2 & H).
  apply io_bind_inl in H as (c & w3 & H3 & H).
  injection H1 as _ <-. injection H2 as _ <-. cbn [cin] in H3.
  destruct (get_menu_choice_line _ _ _ _ _ _ H3) as (pre & l & E).
  assert (Hk : consumes (if c =? 0 then ret false else
      if c =? 1 then calculate_nettool_option_key [] (-1) ;;; ret true else
      if c =? 2 then check_nettool_option_key [] ;;; ret true else
      if c =? 3 then calculate_enigma2_option_key [] (-1) (-1) false ;;; ret true else
      if c =? 4 then check_enigma2_option_key [] ;;; ret true else
      put_err (L "Unexpected choice value: " ++ to_string c ++ [nl]) ;;; ret false)).
  { consumes_tac. }
  destruct (Hk _ _ _ H) as (pre2 & E2). cbn [cin] in E.
  rewrite E, E2, length_app. cbn [length]. rewrite length_app. lia.
Qed.

Lemma menu_rounds_fuel n : forall m w,
  (length (cin w) <= n)%nat -> (length (cin w) <= m)%nat ->
  menu_rounds (S n) w = menu_rounds (S m) w.
Proof.
  induction n as [|n IH]; intros m w Hn Hm; cbn [menu_rounds]; unfold io_bind;
    destruct (main_menu w) as [[again|s] w1] eqn:E; try reflexivity;
    destruct again; try reflexivity; pose proof (main_menu_progress _ _ E); [lia|].
  destruct m as [|m]; [lia|]. apply IH; lia.
Qed.

Lemma menu_loop_rounds n w :
  (length (cin w) <= n)%nat -> menu_rounds (S n) w = menu_loop w.
Proof. intros H. unfold menu_loop. apply menu_rounds_fuel; lia. Qed.

(** X22. A round of [main_menu] that asks to run again has consumed at least one input line. *)
Theorem main_menu_round_reads_line w w' :
  main_menu w = (inl true, w') -> (length (cin w') < length (cin w))%nat.
Proof. exact (main_menu_progress w w'). Qed.

Lemma main_menu_round_reads_line_witness :
  (length (cin (snd (main_menu (mkWorld [L "1"; L "0003333016"; L "4"; L "0"] [] []))))
   < length (cin (mkWorld [L "1"; L "0003333016"; L "4"; L "0"] [] [])))%nat.
Proof.
  apply (main_menu_round_reads_line (mkWorld [L "1"; L "0003333016"; L "4"; L "0"] [] [])).
  vm_compute. reflexivity.
Defined.

(** X23. [main] with --list-options CODE exits with status 0 and reads nothing, for an unknown CODE writing only "No options defined for product code CODE" to stderr; without CODE it writes the error and exits with 1. *)
Theorem main_list_options prog w :
  (forall code rest, exists w',
     main (prog :: L "--list-options" :: code :: rest) w = (inl 0, w') /\ cin w' = cin w /\
     (find_options PRODUCT_OPTIONS code = None ->
        w' = mkWorld (cin w) (cout w) (cerr w ++ L "No options defined for product code " ++ code ++ [nl]))) /\
  main [prog; L "--list-options"] w =
    (inl 1, mkWorld (cin w) (cout w) (cerr w ++ Ln "Error: --list-options requires a product code")).
Proof.
  split.
  - intros code rest. unfold main. cbn [length nth Nat.leb Nat.ltb].
    vm_compute (arg_is (L "--list-options") _). cbn [orb].
    unfold list_options. destruct (find_options PRODUCT_OPTIONS code) as [po|] eqn:E.
    + eexists. split; [reflexivity|]. split; [reflexivity|]. discriminate.
    + eexists. split; [reflexivity|]. split; [reflexivity|]. intros _. reflexivity.
  - reflexivity.
Qed.

Lemma main_list_options_witness :
  find_options PRODUCT_OPTIONS (L "1234") = None /\
  main [L "enigma"; L "--list-options"; L "1234"] (mkWorld [] [] []) =
    (inl 0, mkWorld [] [] ([] ++ L "No options defined for product code " ++ L "1234" ++ [nl])).
Proof.
  assert (HN : find_options PRODUCT_OPTIONS (L "1234") = None) by (vm_compute; reflexivity).
  split; [exact HN|].
  destruct (main_list_options (L "enigma") (mkWorld [] [] [])) as [H _].
  destruct (H (L "1234") []) as (w' & E & _ & Hw). rewrite E, (Hw HN). reflexivity.
Defined.
